(** * A shallow embedding of the arena allocator (components/arena.c)

    The repository ships two revisions of [arena.c]: the multi-block
    allocator (an [Arena] owning a linked list of [ArenaBlock]s that grows on
    demand) and the earlier single-buffer allocator.  The multi-block
    revision is the one the specification describes; it is embedded in
    [Module MultiBlock].  The single-buffer revision is embedded in
    [Module SingleBuffer].

    Conventions of the embedding.
    - [uint64_t], [uintptr_t] and [size_t] are 64-bit: values are [Z] in
      [0, 2^64) and every addition, subtraction and multiplication is
      followed by [u64] (reduction modulo 2^64).
    - A pointer is its address; [NULL] is [0].
    - [Arena *arena] is an [option Arena]: [None] is the null pointer and
      [Some a] a pointer to an arena whose current contents are [a].  A
      function that writes through the pointer returns the new contents.
    - The list of blocks starting at [arena->head] is a [list ArenaBlock],
      most recent block first; the [next] field is the tail of the list and
      [head == NULL] is the empty list.
    - [posix_memalign] and [malloc] are answered by an oracle of type [Libc]
      given to every call that may reach them.
    - Byte contents are a [memory], written by [memset] and [memcpy]. *)

From Stdlib Require Import ZArith List Lia Bool.
From Stdlib.Strings Require Import Byte.
Import ListNotations.
Local Open Scope Z_scope.

(** ** Machine arithmetic *)

Definition u64 (z : Z) : Z := z mod 2 ^ 64.

(** [~x] on 64 bits. *)
Definition not64 (x : Z) : Z := u64 (Z.lnot x).

Definition NULL : Z := 0.

Definition ARENA_DEFAULT_ALIGNMENT : Z := 8.
Definition ARENA_MAX_ALIGNMENT : Z := 16.

(** [alignment == 0 || (alignment & (alignment - 1)) != 0] *)
Definition bad_alignment (alignment : Z) : bool :=
  (alignment =? 0) || negb (Z.land alignment (u64 (alignment - 1)) =? 0).

(** [(ptr + (alignment - 1)) & ~(alignment - 1)] *)
Definition align_forward (ptr alignment : Z) : Z :=
  Z.land (u64 (ptr + u64 (alignment - 1))) (not64 (u64 (alignment - 1))).

(** A 64-bit power of two. *)
Definition pow2 (x : Z) : Prop := exists k, 0 <= k < 64 /\ x = 2 ^ k.

(** ** Byte memory *)

Definition memory := Z -> byte.

Definition memset (m : memory) (dst : Z) (c : byte) (n : Z) : memory :=
  fun a => if (dst <=? a) && (a <? dst + n) then c else m a.

Definition memcpy (m : memory) (dst src n : Z) : memory :=
  fun a => if (dst <=? a) && (a <? dst + n) then m (src + (a - dst)) else m a.

(** Storing the bytes of a list at consecutive addresses. *)
Fixpoint store_bytes (m : memory) (dst : Z) (bs : list byte) : memory :=
  match bs with
  | [] => m
  | b :: bs' =>
      store_bytes (fun a => if a =? dst then b else m a) (dst + 1) bs'
  end.

(** Reading [n] consecutive bytes. *)
Fixpoint load_bytes (m : memory) (src : Z) (n : nat) : list byte :=
  match n with
  | O => []
  | S k => m src :: load_bytes m (src + 1) k
  end.

(** A C string argument is [None] for a null pointer and otherwise the list
    of its bytes before the terminating NUL. *)
Definition strlen (s : list byte) : Z := Z.of_nat (length s).

(** ** The C library, as seen by the allocator *)

Record Libc := {
  (** [posix_memalign(&mem, alignment, size)]: [Some mem] when it returns 0. *)
  posix_memalign : Z -> Z -> option Z;
  (** whether [malloc(sizeof(ArenaBlock))] returns a non-null pointer *)
  malloc_ok : bool
}.

(** A C library that always succeeds and places the buffer at [addr]. *)
Definition libc_at (addr : Z) : Libc :=
  {| posix_memalign := fun _ _ => Some addr; malloc_ok := true |}.

Definition zero_memory : memory := fun _ => x00.

(** A C library that has no memory left. *)
Definition libc_none : Libc :=
  {| posix_memalign := fun _ _ => None; malloc_ok := true |}.

(** ** The multi-block revision *)

Module MultiBlock.

Record ArenaBlock := {
  buffer : Z;
  capacity : Z;
  used : Z
}.

Record Arena := {
  head : list ArenaBlock;
  alignment : Z;
  max_align : Z
}.

(** [ArenaTemp]: [temp_arena] tells whether the [arena] field is non-null;
    the pointer it holds is the pointer [arena_temp_begin] was given. *)
Record ArenaTemp := {
  temp_arena : bool;
  temp_used : Z
}.

Definition set_used (b : ArenaBlock) (u : Z) : ArenaBlock :=
  {| buffer := buffer b; capacity := capacity b; used := u |}.

Definition set_head (a : Arena) (blocks : list ArenaBlock) : Arena :=
  {| head := blocks; alignment := alignment a; max_align := max_align a |}.

(** [Arena arena = {0};] *)
Definition zero_arena : Arena :=
  {| head := []; alignment := 0; max_align := 0 |}.

Definition arena_block_create (libc : Libc) (cap align : Z)
  : option ArenaBlock :=
  let align := if bad_alignment align then ARENA_DEFAULT_ALIGNMENT else align in
  let align := if align >? ARENA_MAX_ALIGNMENT then ARENA_MAX_ALIGNMENT else align in
  match posix_memalign libc align cap with
  | None => None
  | Some mem =>
      if malloc_ok libc
      then Some {| buffer := mem; capacity := cap; used := 0 |}
      else None
  end.

Definition arena_create_with_alignment (libc : Libc) (cap align : Z) : Arena :=
  match arena_block_create libc (if cap >? 0 then cap else 1024) align with
  | None => zero_arena
  | Some block =>
      {| head := [block]; alignment := align; max_align := ARENA_MAX_ALIGNMENT |}
  end.

Definition arena_create (libc : Libc) (cap : Z) : Arena :=
  arena_create_with_alignment libc cap ARENA_DEFAULT_ALIGNMENT.

(** Every block is freed and the head is set to [NULL]. *)
Definition arena_destroy (arena : option Arena) : option Arena :=
  match arena with
  | None => None
  | Some a => Some (set_head a [])
  end.

Definition arena_reset (arena : option Arena) : option Arena :=
  match arena with
  | None => None
  | Some a => Some (set_head a (map (fun b => set_used b 0) (head a)))
  end.

Definition arena_used (arena : option Arena) : Z :=
  match arena with
  | None => 0
  | Some a => fold_left (fun total b => u64 (total + used b)) (head a) 0
  end.

Definition arena_remaining (arena : option Arena) : Z :=
  match arena with
  | None => 0
  | Some a =>
      match head a with
      | [] => 0
      | block :: _ => u64 (capacity block - used block)
      end
  end.

Definition arena_alloc_aligned (libc : Libc) (arena : option Arena)
    (size align : Z) : Z * option Arena :=
  match arena with
  | None => (NULL, None)
  | Some a =>
      if size =? 0 then (NULL, Some a) else
      match head a with
      | [] => (NULL, Some a)
      | block :: rest =>
          let align := if bad_alignment align then alignment a else align in
          let align := if align >? max_align a then max_align a else align in
          let current_ptr := u64 (buffer block + used block) in
          let aligned_ptr := align_forward current_ptr align in
          let padding := u64 (aligned_ptr - current_ptr) in
          if u64 (used block + padding + size) <=? capacity block then
            (aligned_ptr,
             Some (set_head a
                     (set_used block (u64 (used block + u64 (padding + size)))
                      :: rest)))
          else
            let new_capacity := u64 (capacity block * 2) in
            let new_capacity :=
              if new_capacity <? size then u64 (size * 2) else new_capacity in
            match arena_block_create libc new_capacity (alignment a) with
            | None => (NULL, Some a)
            | Some new_block =>
                let aligned_ptr := align_forward (buffer new_block) align in
                (aligned_ptr,
                 Some (set_head a (set_used new_block size :: head a)))
            end
      end
  end.

Definition arena_alloc (libc : Libc) (arena : option Arena) (size : Z)
  : Z * option Arena :=
  arena_alloc_aligned libc arena size
    (match arena with
     | Some a => alignment a
     | None => ARENA_DEFAULT_ALIGNMENT
     end).

Definition arena_alloc_zeroed (libc : Libc) (arena : option Arena) (size : Z)
    (m : memory) : Z * option Arena * memory :=
  let '(ptr, arena') := arena_alloc libc arena size in
  if ptr =? NULL then (ptr, arena', m)
  else (ptr, arena', memset m ptr x00 size).

Definition arena_calloc (libc : Libc) (arena : option Arena) (count size : Z)
    (m : memory) : Z * option Arena * memory :=
  let total := u64 (count * size) in
  arena_alloc_zeroed libc arena total m.

(** [arena_realloc] reads [arena->head->buffer] without checking the head:
    on an arena whose head is [NULL] the behaviour is undefined, which the
    embedding reports as [None]. *)
Definition arena_realloc (libc : Libc) (arena : option Arena)
    (ptr old_size new_size : Z) (m : memory)
  : option (Z * option Arena * memory) :=
  match arena with
  | None => Some (NULL, None, m)
  | Some a =>
      if (ptr =? NULL) || (new_size =? 0) then Some (NULL, Some a, m) else
      match head a with
      | [] => None
      | block :: rest =>
          let last_byte := u64 (buffer block + used block) in
          let ptr_end := u64 (ptr + old_size) in
          let cont :=
            let '(new_ptr, arena') := arena_alloc libc arena new_size in
            if new_ptr =? NULL then Some (new_ptr, arena', m)
            else
              Some (new_ptr, arena',
                    memcpy m new_ptr ptr
                      (if old_size <? new_size then old_size else new_size))
          in
          if ptr_end =? last_byte then
            let new_end := u64 (u64 (ptr - buffer block) + new_size) in
            if new_end <=? capacity block then
              Some (ptr, Some (set_head a (set_used block new_end :: rest)), m)
            else cont
          else cont
      end
  end.

Definition arena_strdup (libc : Libc) (arena : option Arena)
    (str : option (list byte)) (m : memory) : Z * option Arena * memory :=
  match str with
  | None => (NULL, arena, m)
  | Some s =>
      let len := u64 (strlen s + 1) in
      let '(dup, arena') := arena_alloc libc arena len in
      if dup =? NULL then (dup, arena', m)
      else (dup, arena', store_bytes m dup (s ++ [x00]))
  end.

Definition arena_strndup (libc : Libc) (arena : option Arena)
    (str : option (list byte)) (n : Z) (m : memory)
  : Z * option Arena * memory :=
  match str with
  | None => (NULL, arena, m)
  | Some s =>
      let len := strlen s in
      let len := if len >? n then n else len in
      let '(dup, arena') := arena_alloc libc arena (u64 (len + 1)) in
      if dup =? NULL then (dup, arena', m)
      else (dup, arena', store_bytes m dup (firstn (Z.to_nat len) s ++ [x00]))
  end.

Definition arena_temp_begin (arena : option Arena) : ArenaTemp :=
  {| temp_arena := match arena with Some _ => true | None => false end;
     temp_used :=
       match arena with
       | Some a => match head a with block :: _ => used block | [] => 0 end
       | None => 0
       end |}.

(** [pointee] is the current contents of the arena the token points to;
    it is not consulted when the token's pointer is null. *)
Definition arena_temp_end (temp : ArenaTemp) (pointee : Arena) : Arena :=
  if temp_arena temp then
    match head pointee with
    | block :: rest => set_head pointee (set_used block (temp_used temp) :: rest)
    | [] => pointee
    end
  else pointee.

(** *** The alignment an allocation is made at

    The two assignments at the top of [arena_alloc_aligned]: a requested
    alignment that is zero or not a power of two is replaced by the arena's
    default, and the result is clamped to the arena's maximum. *)
Definition effective_alignment (a : Arena) (align : Z) : Z :=
  let align := if bad_alignment align then alignment a else align in
  if align >? max_align a then max_align a else align.

(** The padding [arena_alloc_aligned] computes in front of an allocation in
    [block]. *)
Definition bump_padding (a : Arena) (block : ArenaBlock) (align : Z) : Z :=
  let current_ptr := u64 (buffer block + used block) in
  u64 (align_forward current_ptr (effective_alignment a align) - current_ptr).

(** The alignment [arena_block_create] passes to [posix_memalign]. *)
Definition block_alignment (align : Z) : Z :=
  let align := if bad_alignment align then ARENA_DEFAULT_ALIGNMENT else align in
  if align >? ARENA_MAX_ALIGNMENT then ARENA_MAX_ALIGNMENT else align.

(** The capacity the growth path asks for. *)
Definition grown_capacity (block : ArenaBlock) (size : Z) : Z :=
  let new_capacity := u64 (capacity block * 2) in
  if new_capacity <? size then u64 (size * 2) else new_capacity.

(** *** Calls on one arena

    The allocating entry points, each with the answers the C library gives
    during the call. *)
Inductive alloc_call :=
| AllocAligned (libc : Libc) (size align : Z)
| Alloc (libc : Libc) (size : Z)
| AllocZeroed (libc : Libc) (size : Z)
| Calloc (libc : Libc) (count size : Z)
| Realloc (libc : Libc) (ptr old_size new_size : Z)
| Strdup (libc : Libc) (str : option (list byte))
| Strndup (libc : Libc) (str : option (list byte)) (n : Z).

Inductive call :=
| Allocate (c : alloc_call)
| Destroy
| Reset
| Used
| Remaining
| TempBegin
| TempEnd (temp : ArenaTemp).

(** The arena a call leaves behind when made on [&arena] with contents [a];
    the second component of the result is the returned pointer. *)
Definition after (r : Z * option Arena * memory) (a : Arena)
  : Arena * memory * Z :=
  let '(p, arena', m') := r in
  (match arena' with Some a' => a' | None => a end, m', p).

Definition exec_alloc (c : alloc_call) (a : Arena) (m : memory)
  : option (Arena * memory * Z) :=
  match c with
  | AllocAligned libc size align =>
      Some (after (arena_alloc_aligned libc (Some a) size align, m) a)
  | Alloc libc size => Some (after (arena_alloc libc (Some a) size, m) a)
  | AllocZeroed libc size =>
      Some (after (arena_alloc_zeroed libc (Some a) size m) a)
  | Calloc libc count size =>
      Some (after (arena_calloc libc (Some a) count size m) a)
  | Realloc libc ptr old_size new_size =>
      match arena_realloc libc (Some a) ptr old_size new_size m with
      | Some r => Some (after r a)
      | None => None
      end
  | Strdup libc str => Some (after (arena_strdup libc (Some a) str m) a)
  | Strndup libc str n => Some (after (arena_strndup libc (Some a) str n m) a)
  end.

Definition exec (c : call) (a : Arena) (m : memory)
  : option (Arena * memory) :=
  match c with
  | Allocate c =>
      match exec_alloc c a m with
      | Some (a', m', _) => Some (a', m')
      | None => None
      end
  | Destroy =>
      Some (match arena_destroy (Some a) with Some a' => a' | None => a end, m)
  | Reset =>
      Some (match arena_reset (Some a) with Some a' => a' | None => a end, m)
  | Used | Remaining | TempBegin => Some (a, m)
  | TempEnd temp => Some (arena_temp_end temp a, m)
  end.

(** *** Allocations inside temporary scopes

    [Scoped body] is [temp = arena_temp_begin(&arena); body;
    arena_temp_end(temp)]: scopes written this way are closed in the reverse
    order of their opening. *)
Unset Elimination Schemes.
Inductive stmt :=
| Do (c : alloc_call)
| Scoped (body : list stmt).
Set Elimination Schemes.

(** Induction over statements, with the bodies of scopes covered. *)
Fixpoint stmt_ind (P : stmt -> Prop)
    (HDo : forall c, P (Do c))
    (HScoped : forall body, Forall P body -> P (Scoped body))
    (s : stmt) : P s :=
  match s with
  | Do c => HDo c
  | Scoped body =>
      HScoped body
        ((fix go (l : list stmt) : Forall P l :=
            match l with
            | [] => Forall_nil P
            | s' :: l' => Forall_cons s' (stmt_ind P HDo HScoped s') (go l')
            end) body)
  end.

Fixpoint run_stmt (s : stmt) (a : Arena) (m : memory)
  : option (Arena * memory) :=
  match s with
  | Do c =>
      match exec_alloc c a m with
      | Some (a', m', _) => Some (a', m')
      | None => None
      end
  | Scoped body =>
      let temp := arena_temp_begin (Some a) in
      let run_body :=
        fix run_body (l : list stmt) (a : Arena) (m : memory) :=
          match l with
          | [] => Some (a, m)
          | s :: l' =>
              match run_stmt s a m with
              | Some (a', m') => run_body l' a' m'
              | None => None
              end
          end in
      match run_body body a m with
      | Some (a', m') => Some (arena_temp_end temp a', m')
      | None => None
      end
  end.

Fixpoint run (l : list stmt) (a : Arena) (m : memory)
  : option (Arena * memory) :=
  match l with
  | [] => Some (a, m)
  | s :: l' =>
      match run_stmt s a m with
      | Some (a', m') => run l' a' m'
      | None => None
      end
  end.

(** *** Predicates used in the statements *)

(** [0 <= used <= capacity] *)
Definition block_ok (b : ArenaBlock) : Prop := 0 <= used b <= capacity b.

(** The block created [i]-th (counting from the oldest). *)
Definition nth_block (a : Arena) (i : nat) : option ArenaBlock :=
  nth_error (rev (head a)) i.

(** The size and alignment an allocating call passes down to
    [arena_alloc_aligned], if it gets that far. *)
Definition request (c : alloc_call) (a : Arena) : option (Z * Z) :=
  match c with
  | AllocAligned _ size align => Some (size, align)
  | Alloc _ size => Some (size, alignment a)
  | AllocZeroed _ size => Some (size, alignment a)
  | Calloc _ count size => Some (u64 (count * size), alignment a)
  | Realloc _ ptr _ new_size =>
      if (ptr =? NULL) || (new_size =? 0) then None
      else Some (new_size, alignment a)
  | Strdup _ str =>
      match str with
      | Some s => Some (u64 (strlen s + 1), alignment a)
      | None => None
      end
  | Strndup _ str n =>
      match str with
      | Some s =>
          let len := strlen s in
          Some (u64 ((if len >? n then n else len) + 1), alignment a)
      | None => None
      end
  end.

(** The bump [used + padding + size] of a request stays below 2^64. *)
Definition bump_in_range (a : Arena) (size align : Z) : Prop :=
  match head a with
  | [] => True
  | block :: _ =>
      0 <= used block /\ 0 <= size /\
      used block + bump_padding a block align + size < 2 ^ 64
  end.

(** Whenever [arena_realloc] finds [ptr + old_size] at the end of the head
    block's used region, it is asked to grow (or keep) an allocation that
    lies in that block, and the addresses involved stay below 2^64. *)
Definition realloc_grows (a : Arena) (ptr old_size new_size : Z) : Prop :=
  match head a with
  | [] => True
  | block :: _ =>
      u64 (ptr + old_size) = u64 (buffer block + used block) ->
      0 <= old_size <= new_size /\
      0 <= buffer block <= ptr /\
      ptr + new_size < 2 ^ 64 /\
      0 <= used block /\ buffer block + used block < 2 ^ 64
  end.

Definition call_in_range (c : alloc_call) (a : Arena) : Prop :=
  match request c a with
  | Some (size, align) => bump_in_range a size align
  | None => True
  end /\
  match c with
  | Realloc _ ptr old_size new_size => realloc_grows a ptr old_size new_size
  | _ => True
  end.

(** The calls other than [arena_reset] and [arena_temp_end], an
    [arena_realloc] not shrinking in place, sizes in range. *)
Definition keeps_used (c : call) (a : Arena) : Prop :=
  match c with
  | Reset | TempEnd _ => False
  | Allocate c => call_in_range c a
  | Destroy | Used | Remaining | TempBegin => True
  end.

(** Doubling the head's capacity and the requested size stays below 2^64. *)
Definition growth_in_range (c : alloc_call) (a : Arena) : Prop :=
  match request c a, head a with
  | Some (size, _), block :: _ =>
      0 <= size < 2 ^ 63 /\ capacity block < 2 ^ 63
  | _, _ => True
  end.

(** Allocating calls with growth in range, and [arena_temp_end] with a
    token whose counter fits the current head block. *)
Definition keeps_bound (c : call) (a : Arena) : Prop :=
  match c with
  | Allocate c => growth_in_range c a
  | TempEnd temp =>
      match head a with
      | block :: _ => 0 <= temp_used temp <= capacity block
      | [] => True
      end
  | Destroy | Reset | Used | Remaining | TempBegin => True
  end.

(** [extends l l']: [l'] is [l] with blocks pushed in front, the [used]
    counter of the head of [l] possibly changed. *)
Definition extends (l l' : list ArenaBlock) : Prop :=
  match l with
  | [] => l' = []
  | b :: rest => exists fresh u, l' = fresh ++ set_used b u :: rest
  end.

Definition arena_extends (a a' : Arena) : Prop :=
  alignment a' = alignment a /\ max_align a' = max_align a /\
  extends (head a) (head a').

(** [grows l l']: [l'] is [l] with blocks pushed in front, the [used]
    counter of the head of [l] possibly raised. *)
Definition grows (l l' : list ArenaBlock) : Prop :=
  match l with
  | [] => l' = []
  | b :: rest =>
      exists fresh u, used b <= u /\ l' = fresh ++ set_used b u :: rest
  end.

(** The C library answers an allocating call is made with. *)
Definition libc_of (c : alloc_call) : Libc :=
  match c with
  | AllocAligned libc _ _ | Alloc libc _ | AllocZeroed libc _
  | Calloc libc _ _ | Realloc libc _ _ _ | Strdup libc _
  | Strndup libc _ _ => libc
  end.

(** No block can be created: [posix_memalign] or [malloc] fails. *)
Definition libc_refuses (libc : Libc) : Prop :=
  forall cap align, arena_block_create libc cap align = None.

(** The arena seen by a user of the library: power-of-two default and
    maximum alignment, a head block whose buffer, with room for one
    alignment behind it, lies below 2^64. *)
Definition head_in_range (a : Arena) (block : ArenaBlock) : Prop :=
  pow2 (alignment a) /\ pow2 (max_align a) /\
  0 < buffer block /\ 0 <= used block <= capacity block /\
  buffer block + capacity block + max_align a <= 2 ^ 64.

(** What an allocating call can do: refuse and change nothing, bump the
    counter of the head block, or push one new block in front. *)
Definition call_outcome (libc : Libc) (a a' : Arena) (m m' : memory) (p : Z)
  : Prop :=
  (a' = a /\ m' = m /\ p = NULL) \/
  (exists b rest u,
      head a = b :: rest /\ a' = set_head a (set_used b u :: rest)) \/
  (exists b rest nb cap al u,
      head a = b :: rest /\ arena_block_create libc cap al = Some nb /\
      a' = set_head a (set_used nb u :: b :: rest)).

(** *** Sample arenas *)

(** [arena_create(100)] and [arena_create(1024)], the buffer at 4096. *)
Definition arena100 : Arena := arena_create (libc_at 4096) 100.
Definition arena1024 : Arena := arena_create (libc_at 4096) 1024.

(** [arena_create_with_alignment(1024, 3)], the buffer at 4096. *)
Definition arena_align3 : Arena :=
  arena_create_with_alignment (libc_at 4096) 1024 3.

(** Projections of the result of an allocating call. *)
Definition returned {A B : Type} (r : Z * A * B) : Z := fst (fst r).
Definition arena_of {A B : Type} (r : Z * A * B) : A := snd (fst r).

End MultiBlock.

(** ** The single-buffer revision *)

Module SingleBuffer.

Record Arena := {
  buffer : Z;
  capacity : Z;
  used : Z;
  commit : Z;
  alignment : Z;
  max_align : Z
}.

Record ArenaTemp := {
  temp_arena : bool;
  temp_used : Z
}.

Definition set_used (a : Arena) (u : Z) : Arena :=
  {| buffer := buffer a; capacity := capacity a; used := u;
     commit := commit a; alignment := alignment a; max_align := max_align a |}.

(** [Arena arena = {0};] *)
Definition zero_arena : Arena :=
  {| buffer := NULL; capacity := 0; used := 0; commit := 0;
     alignment := 0; max_align := 0 |}.

Definition arena_create_with_alignment (libc : Libc) (cap align : Z) : Arena :=
  let align := if bad_alignment align then ARENA_DEFAULT_ALIGNMENT else align in
  let align := if align >? ARENA_MAX_ALIGNMENT then ARENA_MAX_ALIGNMENT else align in
  match posix_memalign libc align cap with
  | None => zero_arena
  | Some mem =>
      {| buffer := mem; capacity := cap; used := 0; commit := cap;
         alignment := align; max_align := ARENA_MAX_ALIGNMENT |}
  end.

Definition arena_create (libc : Libc) (cap : Z) : Arena :=
  arena_create_with_alignment libc cap ARENA_DEFAULT_ALIGNMENT.

(** [arena] is [true] when the [Arena *] argument is non-null; the struct
    behind it is uninitialised before the call. *)
Definition arena_init (arena : bool) (buf cap : Z) : bool * option Arena :=
  if negb arena || (buf =? NULL) then (false, None)
  else
    (true,
     Some {| buffer := buf; capacity := cap; used := 0; commit := cap;
             alignment := ARENA_DEFAULT_ALIGNMENT;
             max_align := ARENA_MAX_ALIGNMENT |}).

Definition arena_destroy (arena : option Arena) : option Arena :=
  match arena with
  | None => None
  | Some a =>
      if buffer a =? NULL then Some a
      else
        Some {| buffer := NULL; capacity := 0; used := 0; commit := 0;
                alignment := alignment a; max_align := max_align a |}
  end.

Definition arena_reset (arena : option Arena) : option Arena :=
  match arena with
  | None => None
  | Some a => Some (set_used a 0)
  end.

Definition arena_used (arena : option Arena) : Z :=
  match arena with
  | None => 0
  | Some a => used a
  end.

Definition arena_remaining (arena : option Arena) : Z :=
  match arena with
  | None => 0
  | Some a => u64 (capacity a - used a)
  end.

Definition arena_alloc_aligned (arena : option Arena) (size align : Z)
  : Z * option Arena :=
  match arena with
  | None => (NULL, None)
  | Some a =>
      if size =? 0 then (NULL, Some a) else
      let align := if bad_alignment align then alignment a else align in
      let align := if align >? max_align a then max_align a else align in
      let current_ptr := u64 (buffer a + used a) in
      let aligned_ptr := align_forward current_ptr align in
      let alignment_padding := u64 (aligned_ptr - current_ptr) in
      if u64 (used a + alignment_padding + size) >? capacity a then
        (NULL, Some a)
      else
        (aligned_ptr,
         Some (set_used a (u64 (used a + u64 (alignment_padding + size)))))
  end.

Definition arena_alloc (arena : option Arena) (size : Z) : Z * option Arena :=
  arena_alloc_aligned arena size
    (match arena with
     | Some a => alignment a
     | None => ARENA_DEFAULT_ALIGNMENT
     end).

Definition arena_alloc_zeroed (arena : option Arena) (size : Z) (m : memory)
  : Z * option Arena * memory :=
  let '(ptr, arena') := arena_alloc arena size in
  if ptr =? NULL then (ptr, arena', m)
  else (ptr, arena', memset m ptr x00 size).

Definition arena_realloc (arena : option Arena) (ptr old_size new_size : Z)
    (m : memory) : Z * option Arena * memory :=
  match arena with
  | None => (NULL, None, m)
  | Some a =>
      if (ptr =? NULL) || (new_size =? 0) then (NULL, Some a, m) else
      let last_byte := u64 (buffer a + used a) in
      let ptr_end := u64 (ptr + old_size) in
      let cont :=
        let '(new_ptr, arena') := arena_alloc arena new_size in
        if new_ptr =? NULL then (new_ptr, arena', m)
        else
          let copy_size := if old_size <? new_size then old_size else new_size in
          (new_ptr, arena', memcpy m new_ptr ptr copy_size)
      in
      if ptr_end =? last_byte then
        let new_end := u64 (u64 (ptr - buffer a) + new_size) in
        if new_end <=? capacity a then (ptr, Some (set_used a new_end), m)
        else cont
      else cont
  end.

Definition arena_calloc (arena : option Arena) (count size : Z) (m : memory)
  : Z * option Arena * memory :=
  let total_size := u64 (count * size) in
  let '(ptr, arena') := arena_alloc arena total_size in
  if ptr =? NULL then (ptr, arena', m)
  else (ptr, arena', memset m ptr x00 total_size).

Definition arena_strdup (arena : option Arena) (str : option (list byte))
    (m : memory) : Z * option Arena * memory :=
  match arena, str with
  | Some _, Some s =>
      let len := u64 (strlen s + 1) in
      let '(dup, arena') := arena_alloc arena len in
      if dup =? NULL then (dup, arena', m)
      else (dup, arena', store_bytes m dup (s ++ [x00]))
  | _, _ => (NULL, arena, m)
  end.

Definition arena_strndup (arena : option Arena) (str : option (list byte))
    (n : Z) (m : memory) : Z * option Arena * memory :=
  match arena, str with
  | Some _, Some s =>
      let len := strlen s in
      let len := if len >? n then n else len in
      let '(dup, arena') := arena_alloc arena (u64 (len + 1)) in
      if dup =? NULL then (dup, arena', m)
      else (dup, arena', store_bytes m dup (firstn (Z.to_nat len) s ++ [x00]))
  | _, _ => (NULL, arena, m)
  end.

Definition arena_temp_begin (arena : option Arena) : ArenaTemp :=
  {| temp_arena := match arena with Some _ => true | None => false end;
     temp_used := match arena with Some a => used a | None => 0 end |}.

Definition arena_temp_end (temp : ArenaTemp) (pointee : Arena) : Arena :=
  if temp_arena temp then set_used pointee (temp_used temp) else pointee.

Definition arena1024 : Arena := arena_create (libc_at 4096) 1024.

(** The alignment [arena_alloc_aligned] allocates at. *)
Definition effective_alignment (a : Arena) (align : Z) : Z :=
  let align := if bad_alignment align then alignment a else align in
  if align >? max_align a then max_align a else align.

(** The allocating entry points. *)
Inductive alloc_call :=
| AllocAligned (size align : Z)
| Alloc (size : Z)
| AllocZeroed (size : Z)
| Calloc (count size : Z)
| Realloc (ptr old_size new_size : Z)
| Strdup (str : option (list byte))
| Strndup (str : option (list byte)) (n : Z).

Definition after (r : Z * option Arena * memory) (a : Arena)
  : Arena * memory * Z :=
  let '(p, arena', m') := r in
  (match arena' with Some a' => a' | None => a end, m', p).

(** A call made on [&arena] with contents [a]. *)
Definition exec_alloc (c : alloc_call) (a : Arena) (m : memory)
  : Arena * memory * Z :=
  match c with
  | AllocAligned size align =>
      after (arena_alloc_aligned (Some a) size align, m) a
  | Alloc size => after (arena_alloc (Some a) size, m) a
  | AllocZeroed size => after (arena_alloc_zeroed (Some a) size m) a
  | Calloc count size => after (arena_calloc (Some a) count size m) a
  | Realloc ptr old_size new_size =>
      after (arena_realloc (Some a) ptr old_size new_size m) a
  | Strdup str => after (arena_strdup (Some a) str m) a
  | Strndup str n => after (arena_strndup (Some a) str n m) a
  end.

Fixpoint run (l : list alloc_call) (a : Arena) (m : memory)
  : Arena * memory :=
  match l with
  | [] => (a, m)
  | c :: l' => let '(a', m', _) := exec_alloc c a m in run l' a' m'
  end.

(** Power-of-two alignments, a non-null buffer that lies, with room for one
    alignment behind it, in the lower half of the address space, and [used]
    within the capacity. *)
Definition arena_in_range (a : Arena) : Prop :=
  pow2 (alignment a) /\ pow2 (max_align a) /\
  0 < buffer a /\ 0 <= used a <= capacity a /\
  buffer a + capacity a + max_align a <= 2 ^ 63.

End SingleBuffer.

(** ** The test counters (test/test.h) *)

Module TestH.

(** [unsigned] is 32 bits wide. *)
Definition u32 (z : Z) : Z := z mod 2 ^ 32.

(** The three file-level counters and what was printed: one mark per
    call of [test], [true] for the check mark. *)
Record counters := {
  test_num : Z;
  successes : Z;
  failures : Z;
  printed : list bool
}.

Definition initial : counters :=
  {| test_num := 0; successes := 0; failures := 0; printed := [] |}.

(** The macro [test(x)]. *)
Definition test (x : bool) (st : counters) : counters :=
  if x then
    {| test_num := u32 (test_num st + 1);
       successes := u32 (successes st + 1);
       failures := failures st;
       printed := printed st ++ [true] |}
  else
    {| test_num := u32 (test_num st + 1);
       successes := successes st;
       failures := u32 (failures st + 1);
       printed := printed st ++ [false] |}.

Definition tests (xs : list bool) (st : counters) : counters :=
  fold_left (fun st x => test x st) xs st.

End TestH.

(** * Properties *)

(** ** Machine arithmetic *)

Lemma u64_range z : 0 <= u64 z < 2 ^ 64.
Proof. unfold u64. apply Z.mod_pos_bound. lia. Qed.

Lemma u64_small z : 0 <= z < 2 ^ 64 -> u64 z = z.
Proof. intros. unfold u64. apply Z.mod_small. assumption. Qed.

Lemma u64_ones z : u64 z = Z.land z (Z.ones 64).
Proof. unfold u64. rewrite Z.land_ones by lia. reflexivity. Qed.

(** Masking with [~(2^k - 1)] clears the low [k] bits. *)
Lemma land_not64_ones x k :
  0 <= k -> 0 <= x < 2 ^ 64 ->
  Z.land x (not64 (Z.ones k)) = x - x mod 2 ^ k.
Proof.
  intros Hk Hx. unfold not64. rewrite u64_ones.
  rewrite Z.land_assoc.
  rewrite (Z.land_comm x (Z.lnot _)), <- Z.land_assoc.
  rewrite <- u64_ones, (u64_small x) by assumption.
  rewrite Z.land_comm. 
  rewrite <- Z.ldiff_land.
  rewrite Z.ldiff_ones_r by assumption.
  rewrite Z.shiftr_div_pow2, Z.shiftl_mul_pow2 by assumption.
  pose proof (Z.div_mod x (2 ^ k)) as D.
  assert (2 ^ k <> 0) by (apply Z.pow_nonzero; lia).
  specialize (D H). lia.
Qed.

Lemma align_forward_pow2 p k :
  0 <= k < 64 ->
  align_forward p (2 ^ k) =
  u64 (p + (2 ^ k - 1)) - u64 (p + (2 ^ k - 1)) mod 2 ^ k.
Proof.
  intros Hk. unfold align_forward.
  assert (0 < 2 ^ k < 2 ^ 64) by (split; [apply Z.pow_pos_nonneg; lia| apply Z.pow_lt_mono_r; lia]).
  rewrite (u64_small (2 ^ k - 1)) by lia.
  replace (2 ^ k - 1) with (Z.ones k) at 2 by (rewrite Z.ones_equiv; lia).
  rewrite land_not64_ones; [reflexivity | lia | apply u64_range].
Qed.

Lemma align_forward_multiple p k :
  0 <= k < 64 -> (align_forward p (2 ^ k)) mod 2 ^ k = 0.
Proof.
  intros Hk. rewrite align_forward_pow2 by assumption.
  assert (0 < 2 ^ k) by (apply Z.pow_pos_nonneg; lia).
  rewrite Zminus_mod, Z.mod_mod, Z.sub_diag by lia. apply Z.mod_0_l. lia.
Qed.

Lemma align_forward_bounds p k :
  0 <= k < 64 -> 0 <= p -> p + 2 ^ k <= 2 ^ 64 ->
  p <= align_forward p (2 ^ k) < p + 2 ^ k.
Proof.
  intros Hk Hp Hb. rewrite align_forward_pow2 by assumption.
  assert (0 < 2 ^ k) by (apply Z.pow_pos_nonneg; lia).
  rewrite u64_small by lia.
  pose proof (Z.mod_pos_bound (p + (2 ^ k - 1)) (2 ^ k) H).
  lia.
Qed.

(** The test [alignment & (alignment - 1)] accepts exactly powers of two. *)
Lemma bad_alignment_false a :
  0 <= a < 2 ^ 64 -> bad_alignment a = false ->
  exists k, 0 <= k < 64 /\ a = 2 ^ k.
Proof.
  intros Ha Hb. unfold bad_alignment in Hb.
  apply orb_false_elim in Hb. destruct Hb as [H0 H1].
  apply Z.eqb_neq in H0. apply negb_false_iff in H1. apply Z.eqb_eq in H1.
  rewrite u64_small in H1 by lia.
  assert (Hpos : 0 < a) by lia.
  exists (Z.log2 a).
  pose proof (Z.log2_spec a Hpos) as [Hlo Hhi].
  pose proof (Z.log2_nonneg a) as Hn.
  split.
  - split; [assumption|]. apply Z.log2_lt_pow2; lia.
  - destruct (Z.eq_dec a (2 ^ Z.log2 a)) as [E|NE]; [assumption|exfalso].
    assert (Hl : Z.log2 (a - 1) = Z.log2 a).
    { apply Z.log2_unique; [assumption|].
      replace (Z.log2 a + 1) with (Z.succ (Z.log2 a)) by lia. lia. }
    assert (T : Z.testbit (Z.land a (a - 1)) (Z.log2 a) = true).
    { assert (T1 : Z.testbit a (Z.log2 a) = true) by (apply Z.bit_log2; assumption).
      assert (T2 : Z.testbit (a - 1) (Z.log2 a) = true)
        by (rewrite <- Hl; apply Z.bit_log2; lia).
      rewrite Z.land_spec, T1, T2. reflexivity. }
    rewrite H1 in T. rewrite Z.bits_0 in T. discriminate.
Qed.

Lemma pow2_pos x : pow2 x -> 0 < x < 2 ^ 64.
Proof.
  intros (k & Hk & ->). split.
  - apply Z.pow_pos_nonneg; lia.
  - apply Z.pow_lt_mono_r; lia.
Qed.

Lemma align_forward_fixed p al :
  pow2 al -> 0 <= p -> p + al <= 2 ^ 64 -> p mod al = 0 ->
  align_forward p al = p.
Proof.
  intros (k & Hk & ->) Hp Hend Hpm.
  assert (Hpos : 0 < 2 ^ k) by (apply Z.pow_pos_nonneg; lia).
  pose proof (align_forward_multiple p k Hk) as Hm.
  pose proof (align_forward_bounds p k Hk Hp Hend) as Hb.
  apply Z.mod_divide in Hm; [|lia]. apply Z.mod_divide in Hpm; [|lia].
  destruct Hm as [x Hx]. destruct Hpm as [y Hy].
  rewrite Hx in *. subst p.
  destruct (Z.le_gt_cases x y) as [Hxy|Hxy].
  - assert (x * 2 ^ k <= y * 2 ^ k) by (apply Z.mul_le_mono_nonneg_r; lia).
    lia.
  - assert ((y + 1) * 2 ^ k <= x * 2 ^ k)
      by (apply Z.mul_le_mono_nonneg_r; lia).
    lia.
Qed.

(** An aligned 64-bit address has room for one alignment above it. *)
Lemma pow2_multiple_room p al :
  pow2 al -> 0 <= p < 2 ^ 64 -> p mod al = 0 -> p + al <= 2 ^ 64.
Proof.
  intros (k & Hk & ->) Hp Hpm.
  assert (Hpos : 0 < 2 ^ k) by (apply Z.pow_pos_nonneg; lia).
  apply Z.mod_divide in Hpm; [|lia]. destruct Hpm as [x Hx]. subst p.
  assert (Htop : 2 ^ 64 = 2 ^ (64 - k) * 2 ^ k)
    by (rewrite <- Z.pow_add_r by lia; f_equal; lia).
  rewrite Htop in *.
  assert (Hx : x < 2 ^ (64 - k))
    by (apply (Z.mul_lt_mono_pos_r (2 ^ k)); lia).
  assert (Hs : (x + 1) * 2 ^ k <= 2 ^ (64 - k) * 2 ^ k)
    by (apply Z.mul_le_mono_nonneg_r; lia).
  lia.
Qed.

(** ** The multi-block allocator *)

Import MultiBlock.

(** *** Array allocation and the product [count * size] *)

(** C1.  [arena_calloc] multiplies [count] by [size] in 64 bits and passes
    the wrapped product on, with no test for overflow.  On
    [arena_create(1024)], [arena_calloc(&arena, 2^63 + 4, 2)] has a product
    above 2^64 - 1, yet it returns the start of the buffer and advances the
    head block's [used] by the wrapped product, 8: the overflowing request
    is served instead of refused. *)
Theorem calloc_overflow_is_served :
  let count := 2 ^ 63 + 4 in
  let size := 2 in
  let r := arena_calloc (libc_at 8192) (Some arena1024) count size zero_memory in
  2 ^ 64 - 1 < count * size /\
  returned r = 4096 /\
  returned r <> NULL /\
  arena_of r =
    Some {| head := [ {| buffer := 4096; capacity := 1024; used := 8 |} ];
            alignment := 8; max_align := 16 |} /\
  arena_of r <> Some arena1024.
Proof.
  cbv zeta. repeat split; vm_compute; congruence.
Qed.

(** The single-buffer revision has the same multiplication. *)
Lemma single_buffer_calloc_overflow_is_served :
  let r := SingleBuffer.arena_calloc (Some SingleBuffer.arena1024)
             (2 ^ 63 + 4) 2 zero_memory in
  returned r = 4096 /\
  option_map SingleBuffer.used (arena_of r) = Some 8.
Proof. split; vm_compute; reflexivity. Qed.

(** *** Reallocation of a null pointer *)

(** C3.  [arena_realloc] returns [NULL] as soon as [ptr] is null and leaves
    the arena as it was, for every arena and every size; a plain
    [arena_alloc] of 16 bytes on [arena_create(1024)] instead returns the
    start of the buffer and sets [used] to 16. *)
Theorem realloc_null_returns_null :
  (forall libc a old_size new_size m,
      arena_realloc libc (Some a) NULL old_size new_size m
      = Some (NULL, Some a, m)) /\
  arena_alloc (libc_at 8192) (Some arena1024) 16
  = (4096,
     Some {| head := [ {| buffer := 4096; capacity := 1024; used := 16 |} ];
             alignment := 8; max_align := 16 |}).
Proof.
  split.
  - intros. reflexivity.
  - vm_compute. reflexivity.
Qed.

Lemma single_buffer_realloc_null_returns_null a old_size new_size m :
  SingleBuffer.arena_realloc (Some a) NULL old_size new_size m
  = (NULL, Some a, m).
Proof. reflexivity. Qed.

(** *** Alignment of returned addresses *)

(** C5.  [arena_create_with_alignment] hands the requested alignment to
    [arena_block_create], which normalises its own copy, and then stores the
    value it was given in [arena.alignment].  After
    [arena_create_with_alignment(1024, 3)] the arena's default alignment is
    3; [arena_alloc_aligned(&arena, 10, 0)] falls back to it, the effective
    alignment is 3, and the address returned, 4096, is not a multiple
    of 3. *)
Theorem stored_alignment_breaks_alignment :
  let r := arena_alloc_aligned (libc_at 8192) (Some arena_align3) 10 0 in
  alignment arena_align3 = 3 /\
  effective_alignment arena_align3 0 = 3 /\
  fst r = 4096 /\
  fst r <> NULL /\
  fst r mod effective_alignment arena_align3 0 <> 0.
Proof. cbv zeta. repeat split; vm_compute; congruence. Qed.

(** *** The bound [used <= capacity] *)

(** C7.  On the growth path the capacity of the new block is computed in 64
    bits and [used] is set to [size] without comparing the two.  On
    [arena_create(100)], [arena_alloc(&arena, 2^63 + 50)] does not fit,
    [size * 2] wraps to 100, and the new head block has capacity 100 and
    [used = 2^63 + 50]. *)
Theorem growth_overflow_breaks_used_bound :
  let size := 2 ^ 63 + 50 in
  let r := arena_alloc (libc_at 8192) (Some arena100) size in
  let new_head := {| buffer := 8192; capacity := 100; used := size |} in
  fst r = 8192 /\
  snd r =
    Some {| head := [ new_head;
                      {| buffer := 4096; capacity := 100; used := 0 |} ];
            alignment := 8; max_align := 16 |} /\
  capacity new_head < used new_head /\
  ~ block_ok new_head.
Proof.
  cbv zeta. repeat split; try (vm_compute; reflexivity).
  unfold block_ok. simpl. lia.
Qed.

(** *** Returned ranges *)

(** C9.  The growth path returns the aligned start of the new buffer but
    sets [used] to [size], leaving the padding out.  On [arena_create(100)],
    with the new buffer placed at 8200 (a multiple of the arena's alignment
    8, which is what [arena_block_create] asks for),
    [arena_alloc_aligned(&arena, 120, 16)] returns 8208 with [used = 120]:
    the range [[8208, 8328)] ends above [buffer + used = 8320].  The next
    [arena_alloc(&arena, 8)] returns 8320, inside that range. *)
Theorem growth_path_range_overlaps :
  let r1 := arena_alloc_aligned (libc_at 8200) (Some arena100) 120 16 in
  let r2 := arena_alloc (libc_at 16384) (snd r1) 8 in
  let new_head := {| buffer := 8200; capacity := 200; used := 120 |} in
  fst r1 = 8208 /\
  snd r1 =
    Some {| head := [ new_head;
                      {| buffer := 4096; capacity := 100; used := 0 |} ];
            alignment := 8; max_align := 16 |} /\
  buffer new_head + used new_head < fst r1 + 120 /\
  fst r2 = 8320 /\
  fst r1 <= fst r2 < fst r1 + 120.
Proof. cbv zeta. repeat split; vm_compute; congruence. Qed.

(** *** Creation with capacity zero *)

(** C8.  [arena_create(0)] asks [arena_block_create] for 1024 bytes, exactly
    as [arena_create(1024)] does; when the C library serves the request the
    arena returned has one block as its head, with the buffer reserved, a
    capacity of 1024 (positive, not zero) and nothing used. *)
Theorem create_zero_uses_minimum_capacity (libc : Libc) (mem : Z) :
  posix_memalign libc ARENA_DEFAULT_ALIGNMENT 1024 = Some mem ->
  malloc_ok libc = true ->
  arena_create libc 0 = arena_create libc 1024 /\
  exists block,
    head (arena_create libc 0) = [ block ] /\
    buffer block = mem /\ capacity block = 1024 /\ 0 < capacity block /\
    used block = 0.
Proof.
  intros Hmem Hblk. split; [reflexivity|].
  exists {| buffer := mem; capacity := 1024; used := 0 |}.
  unfold arena_create, arena_create_with_alignment, arena_block_create.
  change (bad_alignment ARENA_DEFAULT_ALIGNMENT) with false.
  change (0 >? 0) with false. cbv beta zeta iota.
  change (ARENA_DEFAULT_ALIGNMENT >? ARENA_MAX_ALIGNMENT) with false.
  cbv iota. rewrite Hmem, Hblk. simpl. repeat split.
Qed.

Lemma create_zero_uses_minimum_capacity_witness :
  (posix_memalign (libc_at 4096) ARENA_DEFAULT_ALIGNMENT 1024 = Some 4096 /\
   malloc_ok (libc_at 4096) = true) /\
  arena_create (libc_at 4096) 0 = arena_create (libc_at 4096) 1024 /\
  exists block,
    head (arena_create (libc_at 4096) 0) = [ block ] /\
    buffer block = 4096 /\ capacity block = 1024 /\ 0 < capacity block /\
    used block = 0.
Proof.
  split; [split; reflexivity|].
  apply (create_zero_uses_minimum_capacity (libc_at 4096) 4096); reflexivity.
Defined.

(** The single-buffer revision passes the capacity on unchanged: there
    [arena_create(0)] yields a buffer of capacity zero. *)
Lemma single_buffer_create_zero libc mem :
  posix_memalign libc ARENA_DEFAULT_ALIGNMENT 0 = Some mem ->
  SingleBuffer.capacity (SingleBuffer.arena_create libc 0) = 0.
Proof.
  intros Hmem. unfold SingleBuffer.arena_create,
    SingleBuffer.arena_create_with_alignment.
  change (bad_alignment ARENA_DEFAULT_ALIGNMENT) with false.
  cbv beta zeta iota.
  change (ARENA_DEFAULT_ALIGNMENT >? ARENA_MAX_ALIGNMENT) with false.
  cbv iota. rewrite Hmem. reflexivity.
Qed.

(** *** A destroyed arena *)

(** C10.  After [arena_destroy] the head is null; on the destroyed arena
    [arena_alloc], [arena_alloc_aligned], [arena_alloc_zeroed] and
    [arena_calloc] return [NULL] and change nothing, [arena_used] and
    [arena_remaining] return 0, and a second [arena_destroy] leaves the
    arena as it is. *)
Theorem destroyed_arena_is_invalid (libc : Libc) (a : Arena)
    (size align count : Z) (m : memory) :
  let d := arena_destroy (Some a) in
  d = Some (set_head a []) /\
  head (set_head a []) = [] /\
  arena_alloc libc d size = (NULL, d) /\
  arena_alloc_aligned libc d size align = (NULL, d) /\
  arena_alloc_zeroed libc d size m = (NULL, d, m) /\
  arena_calloc libc d count size m = (NULL, d, m) /\
  arena_used d = 0 /\
  arena_remaining d = 0 /\
  arena_destroy d = d.
Proof.
  cbv zeta.
  assert (Hal : forall al, arena_alloc_aligned libc (arena_destroy (Some a)) size al
                      = (NULL, arena_destroy (Some a))).
  { intros al. simpl. destruct (size =? 0); reflexivity. }
  assert (Hz : forall sz, arena_alloc_zeroed libc (arena_destroy (Some a)) sz m
                     = (NULL, arena_destroy (Some a), m)).
  { intros sz. unfold arena_alloc_zeroed, arena_alloc. simpl.
    destruct (sz =? 0); reflexivity. }
  repeat split; try reflexivity.
  - apply Hal.
  - apply Hal.
  - apply Hz.
  - apply Hz.
Qed.

(** A null arena pointer is refused by every entry point as well. *)
Lemma null_arena_is_invalid (libc : Libc) (size align count : Z) (m : memory) :
  arena_destroy None = None /\
  arena_alloc libc None size = (NULL, None) /\
  arena_alloc_aligned libc None size align = (NULL, None) /\
  arena_alloc_zeroed libc None size m = (NULL, None, m) /\
  arena_calloc libc None count size m = (NULL, None, m) /\
  arena_used None = 0 /\
  arena_remaining None = 0.
Proof. repeat split. Qed.

(** [arena_realloc] is not among them: with a non-null [ptr] and a non-zero
    [new_size] it reads the buffer of the null head. *)
Lemma realloc_on_destroyed_arena_is_undefined libc a ptr old_size new_size m :
  ptr <> NULL -> new_size <> 0 ->
  arena_realloc libc (arena_destroy (Some a)) ptr old_size new_size m = None.
Proof.
  intros Hp Hn. simpl.
  apply Z.eqb_neq in Hp. apply Z.eqb_neq in Hn. rewrite Hp, Hn. reflexivity.
Qed.

(** *** How allocating calls change the chain of blocks *)

Lemma set_used_used b : set_used b (used b) = b.
Proof. destruct b. reflexivity. Qed.

Lemma set_used_twice b u v : set_used (set_used b u) v = set_used b v.
Proof. reflexivity. Qed.

Lemma set_head_head a : set_head a (head a) = a.
Proof. destruct a. reflexivity. Qed.

Lemma extends_refl l : extends l l.
Proof.
  destruct l as [|b rest]; [reflexivity|].
  exists [], (used b). rewrite set_used_used. reflexivity.
Qed.

Lemma extends_bump b u rest : extends (b :: rest) (set_used b u :: rest).
Proof. exists [], u. reflexivity. Qed.

Lemma extends_push nb b rest : extends (b :: rest) (nb :: b :: rest).
Proof. exists [nb], (used b). rewrite set_used_used. reflexivity. Qed.

Lemma extends_trans l1 l2 l3 : extends l1 l2 -> extends l2 l3 -> extends l1 l3.
Proof.
  destruct l1 as [|b rest]; simpl.
  - intros ->. trivial.
  - intros (fresh & u & ->) H23.
    destruct fresh as [|f fs]; simpl in H23.
    + destruct H23 as (fresh2 & u2 & ->). exists fresh2, u2. reflexivity.
    + destruct H23 as (fresh2 & u2 & ->).
      exists (fresh2 ++ set_used f u2 :: fs), u.
      rewrite <- app_assoc. reflexivity.
Qed.

Lemma extends_length l l' : extends l l' -> (length l <= length l')%nat.
Proof.
  destruct l as [|b rest]; simpl.
  - intros ->. apply Nat.le_refl.
  - intros (fresh & u & ->). rewrite length_app. simpl. lia.
Qed.

(** When no block was pushed only the head's counter can differ. *)
Lemma extends_same_length b rest l' :
  extends (b :: rest) l' -> length l' = length (b :: rest) ->
  exists u, l' = set_used b u :: rest.
Proof.
  intros (fresh & u & ->) Hlen. rewrite length_app in Hlen. simpl in Hlen.
  destruct fresh; [|simpl in Hlen; lia]. exists u. reflexivity.
Qed.

Lemma arena_extends_refl a : arena_extends a a.
Proof. repeat split. apply extends_refl. Qed.

Lemma arena_extends_trans a1 a2 a3 :
  arena_extends a1 a2 -> arena_extends a2 a3 -> arena_extends a1 a3.
Proof.
  intros (A1 & M1 & E1) (A2 & M2 & E2). repeat split; try congruence.
  eapply extends_trans; eassumption.
Qed.

Lemma alloc_aligned_extends libc a size align p r :
  arena_alloc_aligned libc (Some a) size align = (p, r) ->
  exists a', r = Some a' /\ arena_extends a a'.
Proof.
  unfold arena_alloc_aligned.
  destruct (size =? 0).
  { intros [= <- <-]. eexists; split; [reflexivity | apply arena_extends_refl]. }
  destruct (head a) as [|block rest] eqn:Hh.
  { intros [= <- <-]. eexists; split; [reflexivity | apply arena_extends_refl]. }
  cbv zeta.
  destruct (_ <=? capacity block).
  - intros [= <- <-]. eexists; split; [reflexivity|].
    repeat split. rewrite Hh. apply extends_bump.
  - destruct (arena_block_create _ _ _) as [nb|]; intros [= <- <-];
      (eexists; split; [reflexivity|]).
    + repeat split. rewrite Hh. apply extends_push.
    + apply arena_extends_refl.
Qed.

Lemma alloc_extends libc a size p r :
  arena_alloc libc (Some a) size = (p, r) ->
  exists a', r = Some a' /\ arena_extends a a'.
Proof. apply alloc_aligned_extends. Qed.

Lemma exec_alloc_extends c a m a' m' p :
  exec_alloc c a m = Some (a', m', p) -> arena_extends a a'.
Proof.
  destruct c; unfold exec_alloc, after.
  - destruct (arena_alloc_aligned _ _ _ _) as [q r] eqn:E.
    apply alloc_aligned_extends in E as (a1 & -> & H).
    intros [= <- _ _]. exact H.
  - destruct (arena_alloc _ _ _) as [q r] eqn:E.
    apply alloc_extends in E as (a1 & -> & H).
    intros [= <- _ _]. exact H.
  - unfold arena_alloc_zeroed.
    destruct (arena_alloc _ _ _) as [q r] eqn:E.
    apply alloc_extends in E as (a1 & -> & H).
    destruct (q =? NULL); intros [= <- _ _]; exact H.
  - unfold arena_calloc, arena_alloc_zeroed.
    destruct (arena_alloc _ _ _) as [q r] eqn:E.
    apply alloc_extends in E as (a1 & -> & H).
    destruct (q =? NULL); intros [= <- _ _]; exact H.
  - unfold arena_realloc.
    destruct ((ptr =? NULL) || (new_size =? 0)).
    { intros [= <- _ _]. apply arena_extends_refl. }
    destruct (head a) as [|block rest] eqn:Hh; [discriminate|].
    cbv zeta.
    destruct (arena_alloc _ _ _) as [q r] eqn:E.
    apply alloc_extends in E as (a1 & -> & H).
    destruct (_ =? u64 (buffer block + used block)).
    + destruct (_ <=? capacity block).
      * intros [= <- _ _]. repeat split. rewrite Hh. apply extends_bump.
      * destruct (q =? NULL); intros [= <- _ _]; exact H.
    + destruct (q =? NULL); intros [= <- _ _]; exact H.
  - unfold arena_strdup. destruct str as [s|].
    + destruct (arena_alloc _ _ _) as [q r] eqn:E.
      apply alloc_extends in E as (a1 & -> & H).
      destruct (q =? NULL); intros [= <- _ _]; exact H.
    + intros [= <- _ _]. apply arena_extends_refl.
  - unfold arena_strndup. destruct str as [s|].
    + cbv zeta. destruct (arena_alloc _ _ _) as [q r] eqn:E.
      apply alloc_extends in E as (a1 & -> & H).
      destruct (q =? NULL); intros [= <- _ _]; exact H.
    + intros [= <- _ _]. apply arena_extends_refl.
Qed.

Lemma temp_end_extends temp a : arena_extends a (arena_temp_end temp a).
Proof.
  unfold arena_temp_end. destruct (temp_arena temp); [|apply arena_extends_refl].
  destruct (head a) as [|block rest] eqn:Hh; [apply arena_extends_refl|].
  repeat split. simpl. rewrite Hh. apply extends_bump.
Qed.

(** The body of a scope is run as [run] runs it. *)
Lemma run_stmt_scoped body a m :
  run_stmt (Scoped body) a m =
  match run body a m with
  | Some (a', m') =>
      Some (arena_temp_end (arena_temp_begin (Some a)) a', m')
  | None => None
  end.
Proof.
  simpl.
  match goal with
  | |- match ?f body a m with _ => _ end = _ =>
      assert (E : forall l a0 m0, f l a0 m0 = run l a0 m0)
  end.
  { induction l as [|s l IH]; intros a0 m0; simpl; [reflexivity|].
    destruct (run_stmt s a0 m0) as [[a1 m1]|]; [apply IH | reflexivity]. }
  rewrite E. reflexivity.
Qed.

Lemma run_extends_of_Forall body :
  Forall (fun s => forall a m a' m',
              run_stmt s a m = Some (a', m') -> arena_extends a a') body ->
  forall a m a' m', run body a m = Some (a', m') -> arena_extends a a'.
Proof.
  induction 1 as [|s l Hs _ IH]; intros a m a' m'; simpl.
  - intros [= <- _]. apply arena_extends_refl.
  - destruct (run_stmt s a m) as [[a1 m1]|] eqn:E; [|discriminate].
    intros Hrun. eapply arena_extends_trans; [eapply Hs | eapply IH]; eassumption.
Qed.

Lemma run_stmt_extends s :
  forall a m a' m', run_stmt s a m = Some (a', m') -> arena_extends a a'.
Proof.
  induction s as [c | body IH] using stmt_ind; intros a m a' m'.
  - simpl. destruct (exec_alloc c a m) as [[[a1 m1] p]|] eqn:E; [|discriminate].
    intros [= <- _]. eapply exec_alloc_extends; eassumption.
  - rewrite run_stmt_scoped.
    destruct (run body a m) as [[a1 m1]|] eqn:E; [|discriminate].
    intros [= <- _].
    eapply arena_extends_trans; [|apply temp_end_extends].
    eapply run_extends_of_Forall; eassumption.
Qed.

Lemma run_extends body a m a' m' :
  run body a m = Some (a', m') -> arena_extends a a'.
Proof.
  apply run_extends_of_Forall. apply Forall_forall. intros s _.
  apply run_stmt_extends.
Qed.

(** Allocating calls and scopes never remove a block. *)
Lemma run_length_monotone body a m a' m' :
  run body a m = Some (a', m') ->
  (length (head a) <= length (head a'))%nat.
Proof.
  intros Hrun. apply run_extends in Hrun as (_ & _ & He).
  apply extends_length. exact He.
Qed.

(** *** Temporary scopes *)

(** Ending a scope in which no block was added puts the arena back exactly
    as it was when the scope was opened. *)
Lemma scope_restores_arena body a m a' m' :
  run body a m = Some (a', m') ->
  length (head a') = length (head a) ->
  arena_temp_end (arena_temp_begin (Some a)) a' = a.
Proof.
  intros Hrun Hlen. apply run_extends in Hrun as (Ha & Hm & He).
  unfold arena_temp_end, arena_temp_begin. cbn [temp_arena temp_used].
  destruct (head a) as [|block rest] eqn:Hh.
  - simpl in He. rewrite He. destruct a, a'; simpl in *; congruence.
  - apply extends_same_length in He as (u & He); [|assumption].
    rewrite He. unfold set_head. rewrite set_used_twice, set_used_used.
    rewrite Ha, Hm, <- Hh. destruct a. reflexivity.
Qed.

(** C6.  Let a scope be opened on an arena, let its body be any sequence of
    allocating calls and of complete inner scopes, and let the arena have as
    many blocks when the scope is closed as when it was opened (no block was
    added in between).  Then [arena_used] right after [arena_temp_end]
    equals [arena_used] at [arena_temp_begin]. *)
Theorem temp_scope_rollback (body : list stmt) (a : Arena) (m : memory)
    (a' : Arena) (m' : memory) :
  run_stmt (Scoped body) a m = Some (a', m') ->
  length (head a') = length (head a) ->
  arena_used (Some a') = arena_used (Some a).
Proof.
  rewrite run_stmt_scoped.
  destruct (run body a m) as [[a1 m1]|] eqn:E; [|discriminate].
  intros [= <- _] Hlen.
  assert (Hlen1 : length (head a1) = length (head a)).
  { rewrite <- Hlen. unfold arena_temp_end.
    destruct (temp_arena _); [|reflexivity].
    destruct (head a1) eqn:H1; [rewrite H1|]; reflexivity. }
  rewrite (scope_restores_arena body a m a1 m1 E Hlen1). reflexivity.
Qed.

Lemma temp_scope_rollback_witness :
  let a := {| head := [ {| buffer := 4096; capacity := 1024; used := 100 |} ];
              alignment := 8; max_align := 16 |} in
  let body := [ Do (Alloc (libc_at 8192) 200);
                Scoped [ Do (AllocAligned (libc_at 8192) 10 16) ];
                Do (Alloc (libc_at 8192) 24) ] in
  run_stmt (Scoped body) a zero_memory = Some (a, zero_memory) /\
  length (head a) = length (head a) /\
  arena_used (Some a) = arena_used (Some a).
Proof.
  cbv zeta. split; [reflexivity|]. split; [reflexivity|].
  apply (temp_scope_rollback
           [ Do (Alloc (libc_at 8192) 200);
             Scoped [ Do (AllocAligned (libc_at 8192) 10 16) ];
             Do (Alloc (libc_at 8192) 24) ]
           {| head := [ {| buffer := 4096; capacity := 1024; used := 100 |} ];
              alignment := 8; max_align := 16 |}
           zero_memory
           {| head := [ {| buffer := 4096; capacity := 1024; used := 100 |} ];
              alignment := 8; max_align := 16 |}
           zero_memory); reflexivity.
Defined.

(** When a block is added inside the scope, [arena_temp_end] resets the
    counter of the new head only: with 96 bytes used in a block of 100, a
    scope allocating 60 bytes ends with [arena_used] at 192 = 96 + 96
    instead of 96. *)
Lemma temp_scope_across_growth :
  let a := {| head := [ {| buffer := 4096; capacity := 100; used := 96 |} ];
              alignment := 8; max_align := 16 |} in
  option_map (fun r => arena_used (Some (fst r)))
    (run_stmt (Scoped [ Do (Alloc (libc_at 8192) 60) ]) a zero_memory)
  = Some 192 /\
  arena_used (Some a) = 96.
Proof. split; vm_compute; reflexivity. Qed.

(** *** Growth *)

Lemma effective_alignment_pow2 a align :
  0 <= align < 2 ^ 64 -> pow2 (alignment a) -> pow2 (max_align a) ->
  pow2 (effective_alignment a align).
Proof.
  intros Hal Ha Hm. unfold effective_alignment.
  destruct (bad_alignment align) eqn:Hb; cbv zeta.
  - destruct (_ >? _); assumption.
  - destruct (_ >? _); [assumption|].
    apply bad_alignment_false; assumption.
Qed.


Lemma effective_alignment_le_max a align :
  effective_alignment a align <= max_align a.
Proof.
  unfold effective_alignment. cbv zeta.
  destruct (Z.gtb_spec (if bad_alignment align then alignment a else align)
              (max_align a)); lia.
Qed.

Lemma block_create_eq libc cap align :
  arena_block_create libc cap align =
  match posix_memalign libc (block_alignment align) cap with
  | Some mem =>
      if malloc_ok libc
      then Some {| buffer := mem; capacity := cap; used := 0 |}
      else None
  | None => None
  end.
Proof. reflexivity. Qed.

(** The two outcomes of [arena_alloc_aligned] on an arena with a head and a
    non-zero size, with the locals of the source named. *)
Lemma alloc_aligned_eq libc a block rest size align :
  head a = block :: rest -> size <> 0 ->
  arena_alloc_aligned libc (Some a) size align =
  let eff := effective_alignment a align in
  let padding := bump_padding a block align in
  if u64 (used block + padding + size) <=? capacity block then
    (align_forward (u64 (buffer block + used block)) eff,
     Some (set_head a
             (set_used block (u64 (used block + u64 (padding + size))) :: rest)))
  else
    match arena_block_create libc (grown_capacity block size) (alignment a) with
    | None => (NULL, Some a)
    | Some new_block =>
        (align_forward (buffer new_block) eff,
         Some (set_head a (set_used new_block size :: block :: rest)))
    end.
Proof.
  intros Hh Hs. unfold arena_alloc_aligned.
  apply Z.eqb_neq in Hs. rewrite Hs, Hh. reflexivity.
Qed.

(** C2, as the code has it.  Let the default and the maximum alignment of
    the arena be powers of two, let the head block not fit a request of
    [size] bytes ([used + padding + size] exceeds its capacity, the sum
    itself below 2^64), let doubling the capacity and the size stay below
    2^64, and let the C library serve the new block with a buffer aligned
    for the request.  Then [arena_alloc_aligned] pushes a new head block
    whose capacity is twice the old head's capacity, or twice [size] when
    twice the old capacity is below [size] -- at least
    [max (2 * old capacity) size] -- and the allocation succeeds from that
    block: the start of the new buffer is returned, it is not null, and the
    [size] bytes end at the block's [used] counter, inside its capacity.
    The older blocks are untouched. *)
Theorem growth_creates_block (libc : Libc) (a : Arena)
    (block : ArenaBlock) (rest : list ArenaBlock) (size align mem : Z) :
  head a = block :: rest ->
  pow2 (alignment a) -> pow2 (max_align a) -> 0 <= align < 2 ^ 64 ->
  0 < size -> 2 * size < 2 ^ 64 ->
  0 <= capacity block -> 2 * capacity block < 2 ^ 64 ->
  0 <= used block ->
  capacity block < used block + bump_padding a block align + size < 2 ^ 64 ->
  let new_capacity :=
    if 2 * capacity block <? size then 2 * size else 2 * capacity block in
  posix_memalign libc (block_alignment (alignment a)) new_capacity = Some mem ->
  malloc_ok libc = true ->
  0 < mem < 2 ^ 64 -> mem mod effective_alignment a align = 0 ->
  let new_block := {| buffer := mem; capacity := new_capacity; used := size |} in
  arena_alloc_aligned libc (Some a) size align =
    (mem, Some (set_head a (new_block :: block :: rest))) /\
  Z.max (2 * capacity block) size <= new_capacity /\
  mem <> NULL /\
  mem mod effective_alignment a align = 0 /\
  mem + size = buffer new_block + used new_block /\
  mem + size <= buffer new_block + capacity new_block.
Proof.
  intros Hh Ha Hm Hal Hs Hs2 Hc Hc2 Hu Hfit new_capacity Hmem Hblk
         Hmr Hmod new_block.
  assert (Hg : grown_capacity block size = new_capacity).
  { unfold grown_capacity, new_capacity. cbv zeta.
    rewrite (Z.mul_comm (capacity block)), (Z.mul_comm size).
    rewrite !u64_small by lia. reflexivity. }
  assert (Hcap : Z.max (2 * capacity block) size <= new_capacity).
  { unfold new_capacity.
    destruct (Z.ltb_spec (2 * capacity block) size); lia. }
  pose proof (effective_alignment_pow2 a align Hal Ha Hm) as Hp.
  assert (Hfix : align_forward mem (effective_alignment a align) = mem).
  { apply align_forward_fixed; try assumption; try lia.
    apply pow2_multiple_room; (assumption || lia). }
  split.
  - rewrite (alloc_aligned_eq libc a block rest) by (assumption || lia).
    cbv zeta. rewrite u64_small by lia.
    destruct (Z.leb_spec (used block + bump_padding a block align + size)
                (capacity block)) as [Hle|_]; [lia|].
    rewrite block_create_eq, Hg, Hmem, Hblk. cbn [buffer]. rewrite Hfix.
    reflexivity.
  - split; [exact Hcap|]. unfold NULL. simpl.
    repeat split; (assumption || lia).
Qed.

Lemma growth_creates_block_witness :
  let block := {| buffer := 4096; capacity := 100; used := 0 |} in
  let new_block := {| buffer := 8192; capacity := 200; used := 150 |} in
  (head arena100 = [ block ] /\
   pow2 (alignment arena100) /\ pow2 (max_align arena100) /\
   capacity block < used block + bump_padding arena100 block 8 + 150 < 2 ^ 64 /\
   posix_memalign (libc_at 8192) (block_alignment (alignment arena100)) 200
   = Some 8192 /\
   8192 mod effective_alignment arena100 8 = 0) /\
  arena_alloc_aligned (libc_at 8192) (Some arena100) 150 8 =
    (8192, Some (set_head arena100 [ new_block; block ])) /\
  Z.max (2 * capacity block) 150 <= 200 /\
  8192 <> NULL /\
  8192 mod effective_alignment arena100 8 = 0 /\
  8192 + 150 = buffer new_block + used new_block /\
  8192 + 150 <= buffer new_block + capacity new_block.
Proof.
  cbv zeta.
  assert (H8 : pow2 (alignment arena100))
    by (exists 3; split; [lia | reflexivity]).
  assert (H16 : pow2 (max_align arena100))
    by (exists 4; split; [lia | reflexivity]).
  split.
  - split; [reflexivity|]. split; [exact H8|]. split; [exact H16|].
    repeat split; vm_compute; congruence.
  - apply (growth_creates_block (libc_at 8192) arena100
             {| buffer := 4096; capacity := 100; used := 0 |} [] 150 8 8192
             eq_refl H8 H16);
      try reflexivity; try lia; try (simpl; lia);
      vm_compute; intuition congruence.
Defined.

(** The specification's form of C2 fails: on [arena_create(100)] a request of 150 bytes
    does not fit, and the new head block has capacity 200, below
    [max (2 * 100) (2 * 150) = 300]. *)
Lemma growth_capacity_counterexample :
  let block := {| buffer := 4096; capacity := 100; used := 0 |} in
  let r := arena_alloc_aligned (libc_at 8192) (Some arena100) 150 8 in
  head arena100 = [ block ] /\
  capacity block < used block + bump_padding arena100 block 8 + 150 /\
  snd r =
    Some {| head := [ {| buffer := 8192; capacity := 200; used := 150 |};
                      block ];
            alignment := 8; max_align := 16 |} /\
  200 < Z.max (2 * capacity block) (2 * 150).
Proof. cbv zeta. repeat split; vm_compute; congruence. Qed.

(** When the effective alignment is a power of two the address returned
    on the growth path is not null: it lies at most one alignment above the
    start of the new buffer. *)
Lemma grown_pointer_bounds a align mem :
  pow2 (effective_alignment a align) ->
  0 < mem -> mem + effective_alignment a align <= 2 ^ 64 ->
  mem <= align_forward mem (effective_alignment a align)
      < mem + effective_alignment a align /\
  align_forward mem (effective_alignment a align) <> NULL.
Proof.
  intros (k & Hk & ->) Hmem Hend.
  pose proof (align_forward_bounds mem k Hk) as H.
  unfold NULL. lia.
Qed.

(** *** The used counter of a block over one call *)

Lemma grows_refl l : grows l l.
Proof.
  destruct l as [|b rest]; [reflexivity|].
  exists [], (used b). rewrite set_used_used. split; [lia | reflexivity].
Qed.

Lemma grows_nth l l' i b b' :
  grows l l' ->
  nth_error (rev l) i = Some b -> nth_error (rev l') i = Some b' ->
  used b <= used b'.
Proof.
  destruct l as [|x rest]; simpl.
  - intros _ H. destruct i; discriminate.
  - intros (fresh & u & Hu & ->).
    rewrite rev_app_distr. simpl. rewrite <- !app_assoc. simpl.
    intros H1 H2.
    destruct (Nat.lt_ge_cases i (length (rev rest))) as [Hlt|Hge].
    + rewrite nth_error_app1 in H1, H2 by assumption.
      assert (b = b') by congruence. subst. lia.
    + rewrite nth_error_app2 in H1, H2 by assumption.
      destruct (i - length (rev rest))%nat as [|k]; simpl in *.
      * injection H1 as <-. injection H2 as <-. simpl. lia.
      * destruct k; discriminate.
Qed.

Lemma alloc_aligned_grows libc a size align p r :
  bump_in_range a size align ->
  arena_alloc_aligned libc (Some a) size align = (p, r) ->
  exists a', r = Some a' /\ grows (head a) (head a').
Proof.
  unfold bump_in_range. intros Hr.
  destruct (Z.eq_dec size 0) as [->|Hs].
  { simpl. intros [= <- <-]. eexists; split; [reflexivity | apply grows_refl]. }
  destruct (head a) as [|block rest] eqn:Hh.
  { unfold arena_alloc_aligned. rewrite Hh.
    destruct (size =? 0); intros [= <- <-];
      (eexists; split; [reflexivity |]); rewrite Hh; reflexivity. }
  rewrite (alloc_aligned_eq libc a block rest) by assumption. cbv zeta.
  destruct Hr as (Hu & Hsz & Hsum).
  pose proof (u64_range (align_forward (u64 (buffer block + used block))
                           (effective_alignment a align)
                         - u64 (buffer block + used block))) as Hp.
  fold (bump_padding a block align) in Hp.
  destruct (_ <=? capacity block).
  - intros [= <- <-]. eexists; split; [reflexivity|].
    simpl. exists [], (u64 (used block + u64 (bump_padding a block align + size))).
    split; [|reflexivity].
    rewrite (u64_small (bump_padding a block align + size)) by lia.
    rewrite u64_small by lia. lia.
  - destruct (arena_block_create _ _ _) as [nb|]; intros [= <- <-];
      (eexists; split; [reflexivity|]).
    + simpl. exists [set_used nb size], (used block).
      rewrite set_used_used. split; [lia | reflexivity].
    + rewrite Hh. apply grows_refl.
Qed.

Lemma exec_alloc_grows c a m a' m' p :
  call_in_range c a ->
  exec_alloc c a m = Some (a', m', p) -> grows (head a) (head a').
Proof.
  intros [Hreq Hre].
  destruct c; unfold exec_alloc, after; cbn [request] in Hreq.
  - destruct (arena_alloc_aligned _ _ _ _) as [q r] eqn:E.
    apply alloc_aligned_grows in E as (a1 & -> & H); [|assumption].
    intros [= <- _ _]. exact H.
  - destruct (arena_alloc _ _ _) as [q r] eqn:E.
    apply alloc_aligned_grows in E as (a1 & -> & H); [|assumption].
    intros [= <- _ _]. exact H.
  - unfold arena_alloc_zeroed.
    destruct (arena_alloc _ _ _) as [q r] eqn:E.
    apply alloc_aligned_grows in E as (a1 & -> & H); [|assumption].
    destruct (q =? NULL); intros [= <- _ _]; exact H.
  - unfold arena_calloc, arena_alloc_zeroed.
    destruct (arena_alloc _ _ _) as [q r] eqn:E.
    apply alloc_aligned_grows in E as (a1 & -> & H); [|assumption].
    destruct (q =? NULL); intros [= <- _ _]; exact H.
  - unfold arena_realloc.
    destruct ((ptr =? NULL) || (new_size =? 0)).
    { intros [= <- _ _]. apply grows_refl. }
    unfold realloc_grows in Hre.
    destruct (head a) as [|block rest] eqn:Hh; [discriminate|].
    cbv zeta.
    destruct (arena_alloc _ _ _) as [q r] eqn:E.
    apply alloc_aligned_grows in E as (a1 & -> & H); [|assumption].
    rewrite Hh in H.
    destruct (Z.eqb_spec (u64 (ptr + old_size))
                (u64 (buffer block + used block))) as [Heq|_].
    + destruct (_ <=? capacity block).
      * intros [= <- _ _]. simpl.
        destruct (Hre Heq) as (Ho & Hb & Hn & Hu & Hbu).
        rewrite !u64_small in Heq by lia.
        exists [], (u64 (u64 (ptr - buffer block) + new_size)).
        split; [|reflexivity].
        rewrite (u64_small (ptr - buffer block)) by lia.
        rewrite u64_small by lia. lia.
      * destruct (q =? NULL); intros [= <- _ _]; exact H.
    + destruct (q =? NULL); intros [= <- _ _]; exact H.
  - unfold arena_strdup. destruct str as [s|].
    + destruct (arena_alloc _ _ _) as [q r] eqn:E.
      apply alloc_aligned_grows in E as (a1 & -> & H); [|assumption].
      destruct (q =? NULL); intros [= <- _ _]; exact H.
    + intros [= <- _ _]. apply grows_refl.
  - unfold arena_strndup. destruct str as [s|].
    + cbv zeta. destruct (arena_alloc _ _ _) as [q r] eqn:E.
      apply alloc_aligned_grows in E as (a1 & -> & H); [|assumption].
      destruct (q =? NULL); intros [= <- _ _]; exact H.
    + intros [= <- _ _]. apply grows_refl.
Qed.

(** C4, as the code has it.  Over one call other than [arena_reset] and
    [arena_temp_end] -- an [arena_realloc] that resizes in place being asked
    for at least the old size, and the sizes involved not wrapping around
    2^64 -- the [used] counter of every block that exists before and after
    the call does not decrease. *)
Theorem used_never_decreases (c : call) (a : Arena) (m : memory)
    (a' : Arena) (m' : memory) :
  exec c a m = Some (a', m') ->
  keeps_used c a ->
  forall (i : nat) (b b' : ArenaBlock),
    nth_block a i = Some b -> nth_block a' i = Some b' ->
    used b <= used b'.
Proof.
  intros Hex Hk i b b'. unfold nth_block.
  destruct c; simpl in Hk; try contradiction; simpl in Hex.
  - destruct (exec_alloc c a m) as [[[a1 m1] p]|] eqn:E; [|discriminate].
    injection Hex as <- _.
    apply grows_nth. eapply exec_alloc_grows; eassumption.
  - injection Hex as <- _. simpl. intros _ H. destruct i; discriminate.
  - injection Hex as <- _. apply grows_nth, grows_refl.
  - injection Hex as <- _. apply grows_nth, grows_refl.
  - injection Hex as <- _. apply grows_nth, grows_refl.
Qed.

Lemma used_never_decreases_witness :
  let b := {| buffer := 4096; capacity := 1024; used := 100 |} in
  let b' := {| buffer := 4096; capacity := 1024; used := 114 |} in
  let a := {| head := [ b ]; alignment := 8; max_align := 16 |} in
  let a' := {| head := [ b' ]; alignment := 8; max_align := 16 |} in
  let c := Allocate (Alloc (libc_at 8192) 10) in
  (exec c a zero_memory = Some (a', zero_memory) /\ keeps_used c a) /\
  used b <= used b'.
Proof.
  cbv zeta. split.
  - split; [reflexivity|]. repeat split; vm_compute; congruence.
  - refine (used_never_decreases
              (Allocate (Alloc (libc_at 8192) 10))
              {| head := [ {| buffer := 4096; capacity := 1024; used := 100 |} ];
                 alignment := 8; max_align := 16 |}
              zero_memory
              {| head := [ {| buffer := 4096; capacity := 1024; used := 114 |} ];
                 alignment := 8; max_align := 16 |}
              zero_memory _ _ 0%nat
              {| buffer := 4096; capacity := 1024; used := 100 |}
              {| buffer := 4096; capacity := 1024; used := 114 |} _ _);
      try reflexivity.
    repeat split; vm_compute; congruence.
Defined.

(** The specification's form of C4 fails: [p = arena_alloc(&arena, 100)] on
    [arena_create(1024)] leaves [used = 100]; then
    [arena_realloc(&arena, p, 100, 50)] finds [p + 100] at the end of the
    used region, resizes in place and sets [used] to 50. *)
Lemma realloc_shrink_counterexample :
  let b := {| buffer := 4096; capacity := 1024; used := 100 |} in
  let b' := {| buffer := 4096; capacity := 1024; used := 50 |} in
  let a := {| head := [ b ]; alignment := 8; max_align := 16 |} in
  let a' := {| head := [ b' ]; alignment := 8; max_align := 16 |} in
  arena_alloc (libc_at 8192) (Some arena1024) 100 = (4096, Some a) /\
  exec (Allocate (Realloc (libc_at 8192) 4096 100 50)) a zero_memory
  = Some (a', zero_memory) /\
  nth_block a 0 = Some b /\
  nth_block a' 0 = Some b' /\
  used b' < used b.
Proof. cbv zeta. repeat split; vm_compute; reflexivity. Qed.

(** *** Where alignment, bound and range do hold *)

(** X10.  With a power of two as the arena's default and as its maximum
    alignment, every address [arena_alloc_aligned] returns is a multiple of
    the effective alignment, on the bump path and on the growth path. *)
Lemma alloc_aligned_is_aligned libc a size align p r :
  0 <= align < 2 ^ 64 -> pow2 (alignment a) -> pow2 (max_align a) ->
  arena_alloc_aligned libc (Some a) size align = (p, r) ->
  p mod effective_alignment a align = 0.
Proof.
  intros Hal Ha Hm.
  destruct (effective_alignment_pow2 a align Hal Ha Hm) as (k & Hk & Heff).
  assert (Hnull : NULL mod effective_alignment a align = 0) by apply Zmod_0_l.
  unfold arena_alloc_aligned.
  destruct (size =? 0); [intros [= <- _]; exact Hnull|].
  destruct (head a) as [|block rest]; [intros [= <- _]; exact Hnull|].
  fold (effective_alignment a align). cbv zeta.
  destruct (_ <=? capacity block).
  - intros [= <- _]. rewrite Heff. apply align_forward_multiple. assumption.
  - destruct (arena_block_create _ _ _); intros [= <- _]; [|exact Hnull].
    rewrite Heff. apply align_forward_multiple. assumption.
Qed.

(** [arena_create] establishes these hypotheses; the arena of
    [arena_create_with_alignment(1024, 3)] does not satisfy them. *)
Lemma create_alignment_pow2 libc cap block rest :
  head (arena_create libc cap) = block :: rest ->
  pow2 (alignment (arena_create libc cap)) /\
  pow2 (max_align (arena_create libc cap)).
Proof.
  unfold arena_create, arena_create_with_alignment.
  destruct (arena_block_create _ _ _); [|discriminate].
  intros _. split; [exists 3 | exists 4]; split; (lia || reflexivity).
Qed.

Lemma u64_add_idemp_r x y : u64 (x + u64 y) = u64 (x + y).
Proof. unfold u64. apply Zplus_mod_idemp_r. Qed.

Lemma grown_capacity_bound block size :
  0 <= size < 2 ^ 63 -> 0 <= capacity block < 2 ^ 63 ->
  size <= grown_capacity block size.
Proof.
  intros Hs Hc. unfold grown_capacity. cbv zeta.
  rewrite (u64_small (capacity block * 2)) by lia.
  destruct (Z.ltb_spec (capacity block * 2) size); [|lia].
  rewrite u64_small by lia. lia.
Qed.

Lemma alloc_aligned_keeps_bound libc a size align p r :
  Forall block_ok (head a) ->
  match head a with
  | block :: _ => 0 <= size < 2 ^ 63 /\ capacity block < 2 ^ 63
  | [] => True
  end ->
  arena_alloc_aligned libc (Some a) size align = (p, r) ->
  exists a', r = Some a' /\ Forall block_ok (head a').
Proof.
  intros Hok Hr.
  destruct (Z.eq_dec size 0) as [->|Hs].
  { simpl. intros [= <- <-]. eexists; split; [reflexivity | assumption]. }
  destruct (head a) as [|block rest] eqn:Hh.
  { unfold arena_alloc_aligned. rewrite Hh.
    destruct (size =? 0); intros [= <- <-];
      (eexists; split; [reflexivity |]); rewrite Hh; constructor. }
  rewrite (alloc_aligned_eq libc a block rest) by assumption. cbv zeta.
  pose proof (Forall_inv Hok) as Hb. pose proof (Forall_inv_tail Hok) as Ht.
  unfold block_ok in Hb.
  destruct (Z.leb_spec (u64 (used block + bump_padding a block align + size))
              (capacity block)) as [Hle|_].
  - intros [= <- <-]. eexists; split; [reflexivity|]. simpl.
    constructor; [|assumption]. unfold block_ok. simpl.
    rewrite u64_add_idemp_r, Z.add_assoc.
    split; [apply u64_range | assumption].
  - rewrite block_create_eq.
    destruct (posix_memalign _ _ _) as [mem|];
      [destruct (malloc_ok libc)|]; intros [= <- <-];
      (eexists; split; [reflexivity|]); rewrite ?Hh; try assumption.
    simpl. constructor; [|assumption]. unfold block_ok. simpl.
    split; [lia|]. apply grown_capacity_bound; lia.
Qed.

Lemma exec_alloc_keeps_bound c a m a' m' p :
  Forall block_ok (head a) -> growth_in_range c a ->
  exec_alloc c a m = Some (a', m', p) -> Forall block_ok (head a').
Proof.
  intros Hok Hg. unfold growth_in_range in Hg.
  destruct c; unfold exec_alloc, after; cbn [request] in Hg.
  - destruct (arena_alloc_aligned _ _ _ _) as [q r] eqn:E.
    apply alloc_aligned_keeps_bound in E as (a1 & -> & H); try assumption.
    intros [= <- _ _]. exact H.
  - destruct (arena_alloc _ _ _) as [q r] eqn:E.
    apply alloc_aligned_keeps_bound in E as (a1 & -> & H); try assumption.
    intros [= <- _ _]. exact H.
  - unfold arena_alloc_zeroed.
    destruct (arena_alloc _ _ _) as [q r] eqn:E.
    apply alloc_aligned_keeps_bound in E as (a1 & -> & H); try assumption.
    destruct (q =? NULL); intros [= <- _ _]; exact H.
  - unfold arena_calloc, arena_alloc_zeroed.
    destruct (arena_alloc _ _ _) as [q r] eqn:E.
    apply alloc_aligned_keeps_bound in E as (a1 & -> & H); try assumption.
    destruct (q =? NULL); intros [= <- _ _]; exact H.
  - unfold arena_realloc.
    destruct ((ptr =? NULL) || (new_size =? 0)).
    { intros [= <- _ _]. assumption. }
    destruct (head a) as [|block rest] eqn:Hh; [discriminate|].
    cbv zeta.
    destruct (arena_alloc _ _ _) as [q r] eqn:E.
    apply alloc_aligned_keeps_bound in E as (a1 & -> & H);
      [| rewrite Hh; assumption | rewrite Hh; assumption].
    destruct (_ =? u64 (buffer block + used block)).
    + destruct (Z.leb_spec (u64 (u64 (ptr - buffer block) + new_size))
                  (capacity block)) as [Hle|_].
      * intros [= <- _ _]. simpl. constructor.
        -- split; [apply u64_range | exact Hle].
        -- exact (Forall_inv_tail Hok).
      * destruct (q =? NULL); intros [= <- _ _]; exact H.
    + destruct (q =? NULL); intros [= <- _ _]; exact H.
  - unfold arena_strdup. destruct str as [s|].
    + destruct (arena_alloc _ _ _) as [q r] eqn:E.
      apply alloc_aligned_keeps_bound in E as (a1 & -> & H); try assumption.
      destruct (q =? NULL); intros [= <- _ _]; exact H.
    + intros [= <- _ _]. assumption.
  - unfold arena_strndup. destruct str as [s|].
    + cbv zeta. destruct (arena_alloc _ _ _) as [q r] eqn:E.
      apply alloc_aligned_keeps_bound in E as (a1 & -> & H); try assumption.
      destruct (q =? NULL); intros [= <- _ _]; exact H.
    + intros [= <- _ _]. assumption.
Qed.

(** X11.  As long as doubling the capacity and the size does not wrap
    around 2^64, and [arena_temp_end] is given a counter that fits the head
    block, every call keeps [0 <= used <= capacity] in every block. *)
Lemma block_bound_preserved c a m a' m' :
  exec c a m = Some (a', m') ->
  Forall block_ok (head a) -> keeps_bound c a ->
  Forall block_ok (head a').
Proof.
  intros Hex Hok Hk. destruct c; simpl in Hk, Hex.
  - destruct (exec_alloc c a m) as [[[a1 m1] p]|] eqn:E; [|discriminate].
    injection Hex as <- _. eapply exec_alloc_keeps_bound; eassumption.
  - injection Hex as <- _. constructor.
  - injection Hex as <- _. simpl. apply Forall_map.
    eapply Forall_impl; [|exact Hok]. unfold block_ok. simpl. intros; lia.
  - injection Hex as <- _. assumption.
  - injection Hex as <- _. assumption.
  - injection Hex as <- _. assumption.
  - injection Hex as <- _. unfold arena_temp_end.
    destruct (temp_arena temp); [|assumption].
    destruct (head a) as [|block rest] eqn:Hh; [rewrite Hh; constructor|].
    simpl. constructor; [exact Hk | exact (Forall_inv_tail Hok)].
Qed.

(** On the bump path the range returned starts at or above the end of the
    used region and ends exactly at the new end of the used region: it lies
    in the head block below [used] and apart from every range handed out of
    this block before. *)
Lemma bump_path_range libc a block rest size align :
  head a = block :: rest -> 0 < size ->
  pow2 (effective_alignment a align) ->
  0 <= buffer block -> 0 <= used block ->
  buffer block + used block + effective_alignment a align <= 2 ^ 64 ->
  used block + bump_padding a block align + size <= capacity block ->
  capacity block < 2 ^ 64 ->
  let p := align_forward (buffer block + used block)
             (effective_alignment a align) in
  let used' := used block + (p - (buffer block + used block)) + size in
  arena_alloc_aligned libc (Some a) size align
  = (p, Some (set_head a (set_used block used' :: rest))) /\
  buffer block + used block <= p /\
  p + size = buffer block + used'.
Proof.
  intros Hh Hs (k & Hk & Heff) Hb Hu Hend Hfit Hcap p used'.
  assert (Hpos : 0 < 2 ^ k) by (apply Z.pow_pos_nonneg; lia).
  assert (Hcur : u64 (buffer block + used block) = buffer block + used block)
    by (apply u64_small; lia).
  assert (Hp : buffer block + used block <= p < buffer block + used block + 2 ^ k).
  { unfold p. rewrite Heff. apply align_forward_bounds; lia. }
  assert (Hpad : bump_padding a block align = p - (buffer block + used block)).
  { unfold bump_padding. cbv zeta. rewrite Hcur. fold p. apply u64_small. lia. }
  split; [|split; [lia | unfold used'; lia]].
  rewrite (alloc_aligned_eq libc a block rest) by (assumption || lia).
  cbv zeta. rewrite Hcur, Hpad in *. fold p.
  rewrite (u64_small (used block + (p - (buffer block + used block)) + size))
    by lia.
  destruct (Z.leb_spec (used block + (p - (buffer block + used block)) + size)
              (capacity block)) as [_|Hgt]; [|lia].
  rewrite (u64_small (p - (buffer block + used block) + size)) by lia.
  rewrite u64_small by lia.
  replace (used block + (p - (buffer block + used block) + size)) with used'
    by (unfold used'; lia).
  reflexivity.
Qed.

(** * Further properties of the allocator *)

(** ** Alignment arithmetic *)

Lemma pow2_not_bad a : pow2 a -> bad_alignment a = false.
Proof.
  intros (k & Hk & ->). unfold bad_alignment.
  assert (Hpos : 0 < 2 ^ k) by (apply Z.pow_pos_nonneg; lia).
  assert (Hlt : 2 ^ k < 2 ^ 64) by (apply Z.pow_lt_mono_r; lia).
  destruct (Z.eqb_spec (2 ^ k) 0) as [E|_]; [lia|]. simpl.
  rewrite u64_small by lia.
  replace (2 ^ k - 1) with (Z.ones k) by (rewrite Z.ones_equiv; lia).
  rewrite Z.land_ones by lia. rewrite Z_mod_same_full. reflexivity.
Qed.

(** X1.  The test [alignment == 0 || (alignment & (alignment - 1)) != 0]
    that guards every alignment rejects a 64-bit value exactly when it is
    not a power of two. *)
Theorem alignment_test_accepts_powers_of_two (a : Z) :
  0 <= a < 2 ^ 64 ->
  (bad_alignment a = false <-> pow2 a).
Proof.
  intros Ha. split.
  - apply bad_alignment_false. exact Ha.
  - apply pow2_not_bad.
Qed.

Lemma alignment_test_accepts_powers_of_two_witness :
  0 <= 16 < 2 ^ 64 /\ (bad_alignment 16 = false <-> pow2 16).
Proof.
  split; [lia|]. apply (alignment_test_accepts_powers_of_two 16). lia.
Defined.

(** X2.  For a power-of-two alignment and an address that does not wrap,
    [align_forward] returns the least multiple of the alignment that is not
    below the address; an aligned address is returned as it is. *)
Theorem align_forward_least_multiple (p al : Z) :
  pow2 al -> 0 <= p -> p + al <= 2 ^ 64 ->
  align_forward p al mod al = 0 /\
  p <= align_forward p al < p + al /\
  (forall q, p <= q -> q mod al = 0 -> align_forward p al <= q) /\
  (p mod al = 0 -> align_forward p al = p).
Proof.
  intros (k & Hk & ->) Hp Hend.
  assert (Hpos : 0 < 2 ^ k) by (apply Z.pow_pos_nonneg; lia).
  pose proof (align_forward_multiple p k Hk) as Hm.
  pose proof (align_forward_bounds p k Hk Hp Hend) as Hb.
  assert (Hleast : forall q, p <= q -> q mod 2 ^ k = 0 ->
                        align_forward p (2 ^ k) <= q).
  { intros q Hq Hqm.
    apply Z.mod_divide in Hm; [|lia]. apply Z.mod_divide in Hqm; [|lia].
    destruct Hm as [x Hx]. destruct Hqm as [y Hy].
    rewrite Hx in *. subst q.
    destruct (Z.le_gt_cases x y) as [Hxy|Hxy].
    - apply Z.mul_le_mono_nonneg_r; lia.
    - assert (Hs : (y + 1) * 2 ^ k <= x * 2 ^ k)
        by (apply Z.mul_le_mono_nonneg_r; lia).
      lia. }
  repeat split; try assumption; try lia.
  intros Hpm. specialize (Hleast p (Z.le_refl p) Hpm). lia.
Qed.

Lemma align_forward_least_multiple_witness :
  (pow2 8 /\ 0 <= 4106 /\ 4106 + 8 <= 2 ^ 64) /\
  align_forward 4106 8 mod 8 = 0 /\
  4106 <= align_forward 4106 8 < 4106 + 8 /\
  (forall q, 4106 <= q -> q mod 8 = 0 -> align_forward 4106 8 <= q) /\
  (4106 mod 8 = 0 -> align_forward 4106 8 = 4106).
Proof.
  assert (H8 : pow2 8) by (exists 3; split; [lia | reflexivity]).
  split; [repeat split; (exact H8 || lia)|].
  apply (align_forward_least_multiple 4106 8 H8); lia.
Defined.

(** ** Creating blocks and arenas *)

Lemma block_alignment_pow2 al :
  0 <= al < 2 ^ 64 ->
  pow2 (block_alignment al) /\ block_alignment al <= ARENA_MAX_ALIGNMENT.
Proof.
  intros Hal. unfold block_alignment.
  assert (H8 : pow2 8) by (exists 3; split; [lia | reflexivity]).
  assert (H16 : pow2 16) by (exists 4; split; [lia | reflexivity]).
  destruct (bad_alignment al) eqn:Hb; cbv zeta.
  - change (ARENA_DEFAULT_ALIGNMENT >? ARENA_MAX_ALIGNMENT) with false.
    cbv iota. split; [exact H8 | unfold ARENA_DEFAULT_ALIGNMENT,
                                   ARENA_MAX_ALIGNMENT; lia].
  - destruct (Z.gtb_spec al ARENA_MAX_ALIGNMENT).
    + split; [exact H16 | lia].
    + split; [apply bad_alignment_false; assumption | lia].
Qed.

(** X3.  Whatever alignment [arena_block_create] is given, the alignment it
    passes on to [posix_memalign] is a power of two of at most
    [ARENA_MAX_ALIGNMENT]; the block it returns, if any, has the buffer
    [posix_memalign] supplied, the requested capacity and nothing used. *)
Theorem block_create_requests_power_of_two (libc : Libc) (cap al : Z) :
  0 <= al < 2 ^ 64 ->
  exists al',
    pow2 al' /\ al' <= ARENA_MAX_ALIGNMENT /\
    arena_block_create libc cap al =
    match posix_memalign libc al' cap with
    | Some mem =>
        if malloc_ok libc
        then Some {| buffer := mem; capacity := cap; used := 0 |}
        else None
    | None => None
    end.
Proof.
  intros Hal. exists (block_alignment al).
  destruct (block_alignment_pow2 al Hal) as [Hp Hle].
  repeat split; assumption.
Qed.

Lemma block_create_requests_power_of_two_witness :
  0 <= 3 < 2 ^ 64 /\
  exists al',
    pow2 al' /\ al' <= ARENA_MAX_ALIGNMENT /\
    arena_block_create (libc_at 4096) 1024 3 =
    match posix_memalign (libc_at 4096) al' 1024 with
    | Some mem =>
        if malloc_ok (libc_at 4096)
        then Some {| buffer := mem; capacity := 1024; used := 0 |}
        else None
    | None => None
    end.
Proof.
  split; [lia|]. apply (block_create_requests_power_of_two (libc_at 4096) 1024 3).
  lia.
Defined.

(** X4.  An arena returned by [arena_create_with_alignment] is either the
    zeroed arena (no head: the reservation failed) or has exactly one block,
    with nothing used and the requested capacity, 1024 standing in for a
    capacity of zero; [arena_used] is 0 and [arena_remaining] is the whole
    capacity of that block. *)
Theorem created_arena_is_empty (libc : Libc) (cap al : Z) :
  0 <= cap < 2 ^ 64 ->
  let a := arena_create_with_alignment libc cap al in
  let cap' := if cap =? 0 then 1024 else cap in
  arena_used (Some a) = 0 /\
  ((a = zero_arena /\ arena_remaining (Some a) = 0) \/
   (exists mem,
       a = {| head := [ {| buffer := mem; capacity := cap'; used := 0 |} ];
              alignment := al; max_align := ARENA_MAX_ALIGNMENT |} /\
       arena_remaining (Some a) = cap')).
Proof.
  intros Hcap. cbv zeta. unfold arena_create_with_alignment.
  assert (Hc : (if cap >? 0 then cap else 1024) = if cap =? 0 then 1024 else cap).
  { destruct (Z.gtb_spec cap 0), (Z.eqb_spec cap 0); lia. }
  rewrite Hc, block_create_eq.
  destruct (posix_memalign _ _ _) as [mem|];
    [destruct (malloc_ok libc)|]; (split; [reflexivity|]);
    try (left; split; reflexivity).
  right. exists mem. split; [reflexivity|].
  unfold arena_remaining. simpl. rewrite Z.sub_0_r. apply u64_small.
  destruct (Z.eqb_spec cap 0); lia.
Qed.

Lemma created_arena_is_empty_witness :
  0 <= 0 < 2 ^ 64 /\
  let a := arena_create_with_alignment (libc_at 4096) 0 64 in
  let cap' := if 0 =? 0 then 1024 else 0 in
  arena_used (Some a) = 0 /\
  ((a = zero_arena /\ arena_remaining (Some a) = 0) \/
   (exists mem,
       a = {| head := [ {| buffer := mem; capacity := cap'; used := 0 |} ];
              alignment := 64; max_align := ARENA_MAX_ALIGNMENT |} /\
       arena_remaining (Some a) = cap')).
Proof.
  split; [lia|]. apply (created_arena_is_empty (libc_at 4096) 0 64). lia.
Defined.

(** ** Usage accounting *)

Lemma fold_used_sum l :
  forall acc, 0 <= acc < 2 ^ 64 ->
  fold_left (fun total b => u64 (total + used b)) l acc
  = u64 (acc + fold_right Z.add 0 (map used l)).
Proof.
  induction l as [|b l IH]; intros acc Hacc; simpl.
  - rewrite Z.add_0_r. symmetry. apply u64_small. exact Hacc.
  - rewrite IH by apply u64_range.
    unfold u64. rewrite Zplus_mod_idemp_l. f_equal. lia.
Qed.

(** X5.  [arena_used] is the sum of the [used] counters of all blocks of
    the arena, reduced modulo 2^64. *)
Theorem used_is_sum_of_blocks (a : Arena) :
  arena_used (Some a) = u64 (fold_right Z.add 0 (map used (head a))).
Proof.
  unfold arena_used. rewrite fold_used_sum by lia. reflexivity.
Qed.

Lemma fold_used_zero l :
  fold_left (fun total b => u64 (total + used b))
    (map (fun b => set_used b 0) l) 0 = 0.
Proof. induction l as [|b l IH]; simpl; [reflexivity | exact IH]. Qed.

(** X6.  [arena_reset] sets the counter of every block to zero and keeps
    the blocks, their buffers and their capacities: afterwards [arena_used]
    is 0, and resetting again changes nothing. *)
Theorem reset_clears_usage (a : Arena) :
  exists a',
    arena_reset (Some a) = Some a' /\
    arena_used (Some a') = 0 /\
    Forall (fun b => used b = 0) (head a') /\
    map buffer (head a') = map buffer (head a) /\
    map capacity (head a') = map capacity (head a) /\
    alignment a' = alignment a /\ max_align a' = max_align a /\
    arena_reset (Some a') = Some a'.
Proof.
  eexists. split; [reflexivity|]. simpl.
  split; [apply fold_used_zero|].
  split; [apply Forall_map, Forall_forall; reflexivity|].
  split; [rewrite map_map; reflexivity|].
  split; [rewrite map_map; reflexivity|].
  split; [reflexivity|]. split; [reflexivity|].
  unfold set_head. simpl. rewrite map_map. reflexivity.
Qed.

(** ** Requests that are refused *)

(** X7.  A request for zero bytes is refused by every allocating entry
    point, on every arena pointer: the call returns [NULL] and neither the
    arena nor the memory changes.  For [arena_calloc] a zero count or a zero
    element size is such a request; for [arena_realloc] a zero
    [new_size]. *)
Theorem zero_size_is_refused (libc : Libc) (arena : option Arena)
    (align count size ptr old_size : Z) (m : memory) :
  arena_alloc_aligned libc arena 0 align = (NULL, arena) /\
  arena_alloc libc arena 0 = (NULL, arena) /\
  arena_alloc_zeroed libc arena 0 m = (NULL, arena, m) /\
  arena_calloc libc arena 0 size m = (NULL, arena, m) /\
  arena_calloc libc arena count 0 m = (NULL, arena, m) /\
  arena_realloc libc arena ptr old_size 0 m = Some (NULL, arena, m).
Proof.
  assert (Ha : forall al, arena_alloc_aligned libc arena 0 al = (NULL, arena)).
  { intros al. destruct arena; reflexivity. }
  assert (Hz : arena_alloc_zeroed libc arena 0 m = (NULL, arena, m)).
  { unfold arena_alloc_zeroed, arena_alloc. rewrite Ha. reflexivity. }
  repeat split.
  - apply Ha.
  - apply Ha.
  - exact Hz.
  - unfold arena_calloc. exact Hz.
  - unfold arena_calloc. rewrite Z.mul_0_r. exact Hz.
  - unfold arena_realloc. destruct arena; [|reflexivity].
    rewrite orb_true_r. reflexivity.
Qed.

(** ** What an allocating call can do to the arena *)

(** The three outcomes of [arena_alloc_aligned]: refusal, a bump of the
    head block's counter, or a new block pushed in front. *)
Lemma alloc_aligned_outcome libc a size align p r :
  arena_alloc_aligned libc (Some a) size align = (p, r) ->
  (p = NULL /\ r = Some a) \/
  (exists b rest u,
      head a = b :: rest /\ r = Some (set_head a (set_used b u :: rest))) \/
  (exists b rest nb cap al,
      head a = b :: rest /\ arena_block_create libc cap al = Some nb /\
      r = Some (set_head a (set_used nb size :: b :: rest))).
Proof.
  unfold arena_alloc_aligned.
  destruct (size =? 0); [intros [= <- <-]; left; split; reflexivity|].
  destruct (head a) as [|block rest] eqn:Hh;
    [intros [= <- <-]; left; split; reflexivity|].
  cbv zeta. destruct (_ <=? capacity block).
  - intros [= <- <-]. right; left. do 3 eexists. split; reflexivity.
  - destruct (arena_block_create _ _ _) as [nb|] eqn:E; intros [= <- <-].
    + right; right. exists block, rest, nb. do 2 eexists.
      split; [reflexivity|]. split; [exact E | reflexivity].
    + left; split; reflexivity.
Qed.

Lemma alloc_outcome_of libc a size align p r m :
  arena_alloc_aligned libc (Some a) size align = (p, r) ->
  exists a', r = Some a' /\
    forall m', (p = NULL -> m' = m) -> call_outcome libc a a' m m' p.
Proof.
  intros H. apply alloc_aligned_outcome in H.
  destruct H as [[-> ->] | [(b & rest & u & Hh & ->) |
                            (b & rest & nb & cap & al & Hh & Hc & ->)]];
    eexists; (split; [reflexivity|]); intros m' Hm.
  - left. repeat split. apply Hm. reflexivity.
  - right; left. exists b, rest, u. split; [exact Hh | reflexivity].
  - right; right. exists b, rest, nb, cap, al, size.
    split; [exact Hh|]. split; [exact Hc | reflexivity].
Qed.

Lemma exec_alloc_outcome c a m a' m' p :
  exec_alloc c a m = Some (a', m', p) ->
  call_outcome (libc_of c) a a' m m' p.
Proof.
  destruct c; unfold exec_alloc, after, libc_of.
  - destruct (arena_alloc_aligned _ _ _ _) as [q r] eqn:E.
    apply (alloc_outcome_of _ _ _ _ _ _ m) in E as (a1 & -> & H).
    intros [= <- <- <-]. apply H. reflexivity.
  - destruct (arena_alloc _ _ _) as [q r] eqn:E.
    apply (alloc_outcome_of _ _ _ _ _ _ m) in E as (a1 & -> & H).
    intros [= <- <- <-]. apply H. reflexivity.
  - unfold arena_alloc_zeroed.
    destruct (arena_alloc _ _ _) as [q r] eqn:E.
    apply (alloc_outcome_of _ _ _ _ _ _ m) in E as (a1 & -> & H).
    destruct (Z.eqb_spec q NULL); intros [= <- <- <-]; apply H;
      [reflexivity | contradiction].
  - unfold arena_calloc, arena_alloc_zeroed.
    destruct (arena_alloc _ _ _) as [q r] eqn:E.
    apply (alloc_outcome_of _ _ _ _ _ _ m) in E as (a1 & -> & H).
    destruct (Z.eqb_spec q NULL); intros [= <- <- <-]; apply H;
      [reflexivity | contradiction].
  - unfold arena_realloc.
    destruct ((ptr =? NULL) || (new_size =? 0)).
    { intros [= <- <- <-]. left. repeat split. }
    destruct (head a) as [|block rest] eqn:Hh; [discriminate|].
    cbv zeta.
    destruct (arena_alloc _ _ _) as [q r] eqn:E.
    apply (alloc_outcome_of _ _ _ _ _ _ m) in E as (a1 & -> & H).
    destruct (_ =? u64 (buffer block + used block)).
    + destruct (_ <=? capacity block).
      * intros [= <- <- <-]. right; left. do 3 eexists.
        split; [exact Hh | reflexivity].
      * destruct (Z.eqb_spec q NULL); intros [= <- <- <-]; apply H;
          [reflexivity | contradiction].
    + destruct (Z.eqb_spec q NULL); intros [= <- <- <-]; apply H;
        [reflexivity | contradiction].
  - unfold arena_strdup. destruct str as [s|].
    + destruct (arena_alloc _ _ _) as [q r] eqn:E.
      apply (alloc_outcome_of _ _ _ _ _ _ m) in E as (a1 & -> & H).
      destruct (Z.eqb_spec q NULL); intros [= <- <- <-]; apply H;
        [reflexivity | contradiction].
    + intros [= <- <- <-]. left. repeat split.
  - unfold arena_strndup. destruct str as [s|].
    + cbv zeta. destruct (arena_alloc _ _ _) as [q r] eqn:E.
      apply (alloc_outcome_of _ _ _ _ _ _ m) in E as (a1 & -> & H).
      destruct (Z.eqb_spec q NULL); intros [= <- <- <-]; apply H;
        [reflexivity | contradiction].
    + intros [= <- <- <-]. left. repeat split.
Qed.

Lemma alloc_aligned_exhausted libc a size align p r :
  libc_refuses libc ->
  match head a with
  | b :: _ => head_in_range a b /\ 0 <= align < 2 ^ 64
  | [] => True
  end ->
  arena_alloc_aligned libc (Some a) size align = (p, r) ->
  (p = NULL /\ r = Some a) \/
  (p <> NULL /\
   exists b rest u,
     head a = b :: rest /\ r = Some (set_head a (set_used b u :: rest))).
Proof.
  intros Href Hr.
  destruct (Z.eq_dec size 0) as [->|Hs].
  { destruct a; simpl. intros [= <- <-]. left. split; reflexivity. }
  destruct (head a) as [|block rest] eqn:Hh.
  { unfold arena_alloc_aligned. rewrite Hh.
    destruct (size =? 0); intros [= <- <-]; left; split; reflexivity. }
  destruct Hr as [(Ha & Hm & Hb & Hu & Hend) Hal].
  rewrite (alloc_aligned_eq libc a block rest) by assumption. cbv zeta.
  destruct (_ <=? capacity block).
  - intros [= <- <-]. right. split.
    + destruct (effective_alignment_pow2 a align Hal Ha Hm) as (k & Hk & Hk2).
      pose proof (effective_alignment_le_max a align) as Hle.
      pose proof (pow2_pos _ Hm) as Hmax.
      rewrite (u64_small (buffer block + used block)) by lia.
      rewrite Hk2 in *.
      pose proof (align_forward_bounds (buffer block + used block) k Hk).
      unfold NULL. lia.
    + do 3 eexists. split; reflexivity.
  - rewrite Href. intros [= <- <-]. left. split; reflexivity.
Qed.

Lemma alloc_exhausted libc a size p r :
  libc_refuses libc ->
  match head a with b :: _ => head_in_range a b | [] => True end ->
  arena_alloc libc (Some a) size = (p, r) ->
  (p = NULL /\ r = Some a) \/
  (p <> NULL /\
   exists b rest u,
     head a = b :: rest /\ r = Some (set_head a (set_used b u :: rest))).
Proof.
  intros Href Hr. apply alloc_aligned_exhausted; [exact Href|].
  destruct (head a) as [|b rest]; [exact I|].
  split; [exact Hr|]. destruct Hr as (Ha & _).
  pose proof (pow2_pos _ Ha). lia.
Qed.

(** X8.  On an arena in range, when the C library can supply no block, an
    allocating call either returns [NULL] and leaves the arena and the
    memory exactly as they were, or is served from the head block: it
    returns a non-null pointer, and the counter of the head block is the
    only thing of the arena that changes. *)
Theorem exhausted_library_never_grows (c : alloc_call) (a : Arena)
    (m : memory) (a' : Arena) (m' : memory) (p : Z) :
  exec_alloc c a m = Some (a', m', p) ->
  libc_refuses (libc_of c) ->
  match head a with b :: _ => head_in_range a b | [] => True end ->
  match c with
  | AllocAligned _ _ align => 0 <= align < 2 ^ 64
  | _ => True
  end ->
  (a' = a /\ m' = m /\ p = NULL) \/
  (p <> NULL /\
   exists b rest u,
     head a = b :: rest /\ a' = set_head a (set_used b u :: rest)).
Proof.
  intros Hex Href Hr Hal.
  destruct c; unfold exec_alloc, after, libc_of in *.
  - destruct (arena_alloc_aligned _ _ _ _) as [q r] eqn:E.
    apply alloc_aligned_exhausted in E; [|exact Href|].
    + destruct E as [[-> ->] | (Hq & b & rest & u & Hh & ->)];
        injection Hex as <- <- <-.
      * left. repeat split.
      * right. split; [exact Hq|]. exists b, rest, u. split; [exact Hh | reflexivity].
    + destruct (head a); [exact I | split; assumption].
  - destruct (arena_alloc _ _ _) as [q r] eqn:E.
    apply alloc_exhausted in E; [|exact Href | exact Hr].
    destruct E as [[-> ->] | (Hq & b & rest & u & Hh & ->)];
      injection Hex as <- <- <-.
    + left. repeat split.
    + right. split; [exact Hq|]. exists b, rest, u. split; [exact Hh | reflexivity].
  - unfold arena_alloc_zeroed in Hex.
    destruct (arena_alloc _ _ _) as [q r] eqn:E.
    apply alloc_exhausted in E; [|exact Href | exact Hr].
    destruct E as [[-> ->] | (Hq & b & rest & u & Hh & ->)].
    + simpl in Hex. injection Hex as <- <- <-. left. repeat split.
    + destruct (q =? NULL); injection Hex as <- <- <-;
        (right; split; [exact Hq|]; exists b, rest, u;
         split; [exact Hh | reflexivity]).
  - unfold arena_calloc, arena_alloc_zeroed in Hex.
    destruct (arena_alloc _ _ _) as [q r] eqn:E.
    apply alloc_exhausted in E; [|exact Href | exact Hr].
    destruct E as [[-> ->] | (Hq & b & rest & u & Hh & ->)].
    + simpl in Hex. injection Hex as <- <- <-. left. repeat split.
    + destruct (q =? NULL); injection Hex as <- <- <-;
        (right; split; [exact Hq|]; exists b, rest, u;
         split; [exact Hh | reflexivity]).
  - unfold arena_realloc in Hex.
    destruct (Z.eqb_spec ptr NULL) as [Eptr|Hptr].
    { simpl in Hex. injection Hex as <- <- <-. left. repeat split. }
    destruct (new_size =? 0).
    { simpl in Hex. injection Hex as <- <- <-. left. repeat split. }
    cbn [orb] in Hex.
    destruct (head a) as [|block rest] eqn:Hh; [discriminate|].
    cbv zeta in Hex.
    destruct (arena_alloc _ _ _) as [q r] eqn:E.
    apply alloc_exhausted in E; [|exact Href | rewrite Hh; exact Hr].
    assert (Hfall :
              match (if q =? NULL then Some (q, r, m)
                     else Some (q, r,
                                memcpy m q ptr
                                  (if old_size <? new_size then old_size
                                   else new_size)))
              with
              | Some r0 => Some (after r0 a)
              | None => None
              end = Some (a', m', p) ->
              (a' = a /\ m' = m /\ p = NULL) \/
              (p <> NULL /\
               exists b rest0 u,
                 block :: rest = b :: rest0 /\
                 a' = set_head a (set_used b u :: rest0))).
    { rewrite Hh in E.
      destruct E as [[-> ->] | (Hq & b & rest0 & u & Hb & ->)].
      - simpl. intros [= <- <- <-]. left. repeat split.
      - destruct (q =? NULL); simpl; intros [= <- <- <-];
          (right; split; [exact Hq|]; exists b, rest0, u;
           split; [exact Hb | reflexivity]). }
    unfold after in Hfall.
    destruct (_ =? u64 (buffer block + used block)).
    + destruct (_ <=? capacity block).
      * injection Hex as <- <- <-. right. split; [exact Hptr|].
        do 3 eexists. split; reflexivity.
      * apply Hfall. exact Hex.
    + apply Hfall. exact Hex.
  - unfold arena_strdup in Hex. destruct str as [s|].
    + destruct (arena_alloc _ _ _) as [q r] eqn:E.
      apply alloc_exhausted in E; [|exact Href | exact Hr].
      destruct E as [[-> ->] | (Hq & b & rest & u & Hh & ->)].
      * simpl in Hex. injection Hex as <- <- <-. left. repeat split.
      * destruct (q =? NULL); injection Hex as <- <- <-;
          (right; split; [exact Hq|]; exists b, rest, u;
           split; [exact Hh | reflexivity]).
    + injection Hex as <- <- <-. left. repeat split.
  - unfold arena_strndup in Hex. destruct str as [s|].
    + cbv zeta in Hex. destruct (arena_alloc _ _ _) as [q r] eqn:E.
      apply alloc_exhausted in E; [|exact Href | exact Hr].
      destruct E as [[-> ->] | (Hq & b & rest & u & Hh & ->)].
      * simpl in Hex. injection Hex as <- <- <-. left. repeat split.
      * destruct (q =? NULL); injection Hex as <- <- <-;
          (right; split; [exact Hq|]; exists b, rest, u;
           split; [exact Hh | reflexivity]).
    + injection Hex as <- <- <-. left. repeat split.
Qed.

Lemma exhausted_library_never_grows_witness :
  let block := {| buffer := 4096; capacity := 1024; used := 0 |} in
  (exec_alloc (Alloc libc_none 2000) arena1024 zero_memory
   = Some (arena1024, zero_memory, NULL) /\
   libc_refuses (libc_of (Alloc libc_none 2000)) /\
   head arena1024 = [ block ] /\ head_in_range arena1024 block) /\
  ((arena1024 = arena1024 /\ zero_memory = zero_memory /\ NULL = NULL) \/
   (NULL <> NULL /\
    exists b rest u,
      head arena1024 = b :: rest /\
      arena1024 = set_head arena1024 (set_used b u :: rest))).
Proof.
  cbv zeta.
  assert (H1 : exec_alloc (Alloc libc_none 2000) arena1024 zero_memory
               = Some (arena1024, zero_memory, NULL)) by reflexivity.
  assert (H2 : libc_refuses (libc_of (Alloc libc_none 2000)))
    by (intros cap al; reflexivity).
  assert (H3 : head_in_range arena1024
                 {| buffer := 4096; capacity := 1024; used := 0 |}).
  { split; [exists 3; split; [lia | reflexivity]|].
    split; [exists 4; split; [lia | reflexivity]|].
    simpl. lia. }
  split; [split; [exact H1 | split; [exact H2 | split; [reflexivity | exact H3]]]|].
  exact (exhausted_library_never_grows
           (Alloc libc_none 2000) arena1024 zero_memory
           arena1024 zero_memory NULL H1 H2 H3 I).
Defined.

(** X9.  An allocating call never touches a block behind the head and never
    changes a buffer, a capacity or the alignment settings: it either
    changes the counter of the head block or pushes one new block in front
    of an unchanged chain.  On an arena without a head it returns [NULL] and
    changes nothing. *)
Theorem alloc_call_touches_head_only (c : alloc_call) (a : Arena)
    (m : memory) (a' : Arena) (m' : memory) (p : Z) :
  exec_alloc c a m = Some (a', m', p) ->
  alignment a' = alignment a /\ max_align a' = max_align a /\
  match head a with
  | [] => a' = a /\ m' = m /\ p = NULL
  | b :: rest =>
      (exists u, head a' = set_used b u :: rest) \/
      (exists nb, head a' = nb :: b :: rest)
  end.
Proof.
  intros Hex. apply exec_alloc_outcome in Hex.
  destruct Hex as [(-> & -> & ->) |
                   [(b & rest & u & Hh & ->) |
                    (b & rest & nb & cap & al & u & Hh & _ & ->)]].
  - repeat split. destruct (head a) as [|b rest]; [repeat split|].
    left. exists (used b). rewrite set_used_used. reflexivity.
  - repeat split. rewrite Hh. left. exists u. reflexivity.
  - repeat split. rewrite Hh. right. eexists. reflexivity.
Qed.

Lemma alloc_call_touches_head_only_witness :
  let a' := {| head := [ {| buffer := 8192; capacity := 200; used := 150 |};
                         {| buffer := 4096; capacity := 100; used := 0 |} ];
               alignment := 8; max_align := 16 |} in
  exec_alloc (Alloc (libc_at 8192) 150) arena100 zero_memory
  = Some (a', zero_memory, 8192) /\
  alignment a' = alignment arena100 /\ max_align a' = max_align arena100 /\
  match head arena100 with
  | [] => a' = arena100 /\ zero_memory = zero_memory /\ 8192 = NULL
  | b :: rest =>
      (exists u, head a' = set_used b u :: rest) \/
      (exists nb, head a' = nb :: b :: rest)
  end.
Proof.
  cbv zeta.
  assert (H1 : exec_alloc (Alloc (libc_at 8192) 150) arena100 zero_memory
               = Some ({| head := [ {| buffer := 8192; capacity := 200;
                                       used := 150 |};
                                    {| buffer := 4096; capacity := 100;
                                       used := 0 |} ];
                          alignment := 8; max_align := 16 |},
                       zero_memory, 8192)) by reflexivity.
  split; [exact H1|].
  exact (alloc_call_touches_head_only _ _ _ _ _ _ H1).
Defined.

(** ** Alignment, bound and range: instances *)

Lemma alloc_aligned_is_aligned_witness :
  (0 <= 64 < 2 ^ 64 /\ pow2 (alignment arena1024) /\
   pow2 (max_align arena1024) /\
   arena_alloc_aligned (libc_at 8192) (Some arena1024) 10 64
   = (4096,
      Some {| head := [ {| buffer := 4096; capacity := 1024; used := 10 |} ];
              alignment := 8; max_align := 16 |})) /\
  4096 mod effective_alignment arena1024 64 = 0.
Proof.
  assert (H8 : pow2 (alignment arena1024))
    by (exists 3; split; [lia | reflexivity]).
  assert (H16 : pow2 (max_align arena1024))
    by (exists 4; split; [lia | reflexivity]).
  assert (Hr : 0 <= 64 < 2 ^ 64) by lia.
  assert (He : arena_alloc_aligned (libc_at 8192) (Some arena1024) 10 64
               = (4096,
                  Some {| head := [ {| buffer := 4096; capacity := 1024;
                                       used := 10 |} ];
                          alignment := 8; max_align := 16 |}))
    by reflexivity.
  split; [repeat split; (assumption || lia)|].
  exact (alloc_aligned_is_aligned _ _ _ _ _ _ Hr H8 H16 He).
Defined.

Lemma block_bound_preserved_witness :
  let a' := {| head := [ {| buffer := 8192; capacity := 200; used := 150 |};
                         {| buffer := 4096; capacity := 100; used := 0 |} ];
               alignment := 8; max_align := 16 |} in
  let c := Allocate (Alloc (libc_at 8192) 150) in
  (exec c arena100 zero_memory = Some (a', zero_memory) /\
   Forall block_ok (head arena100) /\ keeps_bound c arena100) /\
  Forall block_ok (head a').
Proof.
  cbv zeta.
  assert (H1 : exec (Allocate (Alloc (libc_at 8192) 150)) arena100 zero_memory
               = Some ({| head := [ {| buffer := 8192; capacity := 200;
                                       used := 150 |};
                                    {| buffer := 4096; capacity := 100;
                                       used := 0 |} ];
                          alignment := 8; max_align := 16 |}, zero_memory))
    by reflexivity.
  assert (H2 : Forall block_ok (head arena100)).
  { constructor; [|constructor]. unfold block_ok. simpl. lia. }
  assert (H3 : keeps_bound (Allocate (Alloc (libc_at 8192) 150)) arena100).
  { vm_compute. repeat split; congruence. }
  split; [split; [exact H1 | split; [exact H2 | exact H3]]|].
  exact (block_bound_preserved _ _ _ _ _ H1 H2 H3).
Defined.

(** ** Allocations served from the head block *)

Lemma bump_served libc a block rest size align :
  head a = block :: rest -> head_in_range a block ->
  0 <= align < 2 ^ 64 -> 0 < size ->
  used block + bump_padding a block align + size <= capacity block ->
  exists p u,
    arena_alloc_aligned libc (Some a) size align
    = (p, Some (set_head a (set_used block u :: rest))) /\
    p = align_forward (buffer block + used block)
          (effective_alignment a align) /\
    u = used block + bump_padding a block align + size /\
    bump_padding a block align = p - (buffer block + used block) /\
    buffer block + used block <= p
      < buffer block + used block + effective_alignment a align /\
    p + size = buffer block + u.
Proof.
  intros Hh (Ha & Hm & Hb & Hu & Hend) Hal Hs Hfit.
  pose proof (effective_alignment_pow2 a align Hal Ha Hm) as Hp.
  pose proof (effective_alignment_le_max a align) as Hle.
  pose proof (pow2_pos _ Hp) as Hpos.
  destruct (bump_path_range libc a block rest size align Hh Hs Hp)
    as (Heq & Hlo & Hsum); try lia.
  destruct Hp as (k & Hk & Hk2).
  assert (Hbd : buffer block + used block
                <= align_forward (buffer block + used block)
                     (effective_alignment a align)
                < buffer block + used block + effective_alignment a align).
  { rewrite Hk2. apply align_forward_bounds; lia. }
  assert (Hpad : bump_padding a block align
                 = align_forward (buffer block + used block)
                     (effective_alignment a align)
                   - (buffer block + used block)).
  { unfold bump_padding. cbv zeta.
    rewrite (u64_small (buffer block + used block)) by lia.
    apply u64_small. lia. }
  do 2 eexists. split; [exact Heq|].
  split; [reflexivity|]. split; [lia|]. split; [exact Hpad|].
  split; [exact Hbd | exact Hsum].
Qed.

(** X12.  On an arena in range, a request that fits the head block
    ([used + padding + size <= capacity]) is served from it: the padding is
    below the effective alignment, the range returned starts at or above the
    old end of the used region, ends exactly at the new one and stays within
    the block's capacity, the address is not null, and no block is added. *)
Theorem allocation_lies_in_used_region (libc : Libc) (a : Arena)
    (block : ArenaBlock) (rest : list ArenaBlock) (size align : Z) :
  head a = block :: rest -> head_in_range a block ->
  0 <= align < 2 ^ 64 -> 0 < size ->
  used block + bump_padding a block align + size <= capacity block ->
  exists p u,
    arena_alloc_aligned libc (Some a) size align
    = (p, Some (set_head a (set_used block u :: rest))) /\
    p <> NULL /\
    0 <= bump_padding a block align < effective_alignment a align /\
    buffer block + used block <= p /\
    p + size = buffer block + u /\
    u <= capacity block.
Proof.
  intros Hh Hr Hal Hs Hfit.
  destruct (bump_served libc a block rest size align Hh Hr Hal Hs Hfit)
    as (p & u & Heq & _ & Hu & Hpad & Hbd & Hsum).
  destruct Hr as (_ & _ & Hb & Hused & _).
  exists p, u. split; [exact Heq|]. unfold NULL. repeat split; lia.
Qed.

Lemma allocation_lies_in_used_region_witness :
  let block := {| buffer := 4096; capacity := 1024; used := 10 |} in
  let a := {| head := [ block ]; alignment := 8; max_align := 16 |} in
  (head_in_range a block /\
   used block + bump_padding a block 8 + 10 <= capacity block) /\
  exists p u,
    arena_alloc_aligned (libc_at 8192) (Some a) 10 8
    = (p, Some (set_head a [ set_used block u ])) /\
    p <> NULL /\
    0 <= bump_padding a block 8 < effective_alignment a 8 /\
    buffer block + used block <= p /\
    p + 10 = buffer block + u /\
    u <= capacity block.
Proof.
  cbv zeta.
  assert (Hr : head_in_range
                 {| head := [ {| buffer := 4096; capacity := 1024;
                                 used := 10 |} ];
                    alignment := 8; max_align := 16 |}
                 {| buffer := 4096; capacity := 1024; used := 10 |}).
  { split; [exists 3; split; [lia | reflexivity]|].
    split; [exists 4; split; [lia | reflexivity]|].
    simpl. lia. }
  assert (Hf : 10 + bump_padding
                      {| head := [ {| buffer := 4096; capacity := 1024;
                                      used := 10 |} ];
                         alignment := 8; max_align := 16 |}
                      {| buffer := 4096; capacity := 1024; used := 10 |} 8
               + 10 <= 1024) by (vm_compute; congruence).
  split; [split; [exact Hr | exact Hf]|].
  apply (allocation_lies_in_used_region (libc_at 8192) _ _ [] 10 8);
    try reflexivity; try assumption; lia.
Defined.

Lemma head_in_range_bump a block rest u :
  head_in_range a block -> 0 <= u <= capacity block ->
  head_in_range (set_head a (set_used block u :: rest)) (set_used block u).
Proof.
  intros (Ha & Hm & Hb & Hu & Hend) Hu'. repeat split; simpl; (assumption || lia).
Qed.

(** X13.  Two requests served one after the other from the head block of an
    arena in range get ranges that do not overlap: the second starts at or
    above the end of the first, and both lie inside the block's buffer. *)
Theorem consecutive_allocations_are_disjoint (libc1 libc2 : Libc) (a : Arena)
    (block : ArenaBlock) (rest : list ArenaBlock)
    (size1 align1 size2 align2 p1 p2 : Z) (a1 a2 : Arena) :
  head a = block :: rest -> head_in_range a block ->
  0 <= align1 < 2 ^ 64 -> 0 <= align2 < 2 ^ 64 ->
  0 < size1 -> 0 < size2 ->
  used block + bump_padding a block align1 + size1 <= capacity block ->
  arena_alloc_aligned libc1 (Some a) size1 align1 = (p1, Some a1) ->
  match head a1 with
  | b1 :: _ => used b1 + bump_padding a1 b1 align2 + size2 <= capacity b1
  | [] => False
  end ->
  arena_alloc_aligned libc2 (Some a1) size2 align2 = (p2, Some a2) ->
  buffer block <= p1 /\ p1 + size1 <= p2 /\
  p2 + size2 <= buffer block + capacity block /\
  length (head a2) = length (head a).
Proof.
  intros Hh Hr Hal1 Hal2 Hs1 Hs2 Hfit1 He1 Hfit2 He2.
  destruct (bump_served libc1 a block rest size1 align1 Hh Hr Hal1 Hs1 Hfit1)
    as (q1 & u1 & Heq1 & _ & Hu1 & Hpad1 & Hbd1 & Hsum1).
  rewrite Heq1 in He1. injection He1 as <- <-.
  simpl in Hfit2.
  assert (Hr1 : head_in_range (set_head a (set_used block u1 :: rest))
                  (set_used block u1)).
  { apply head_in_range_bump; [exact Hr|].
    destruct Hr as (_ & _ & _ & Hu & _). lia. }
  destruct (bump_served libc2 (set_head a (set_used block u1 :: rest))
              (set_used block u1) rest size2 align2
              eq_refl Hr1 Hal2 Hs2 Hfit2)
    as (q2 & u2 & Heq2 & _ & Hu2 & Hpad2 & Hbd2 & Hsum2).
  rewrite Heq2 in He2. injection He2 as <- <-.
  simpl in *. destruct Hr as (_ & _ & _ & Hu & _).
  rewrite Hh. simpl. repeat split; lia.
Qed.

Lemma consecutive_allocations_are_disjoint_witness :
  let b0 := {| buffer := 4096; capacity := 1024; used := 0 |} in
  let a := {| head := [ b0 ]; alignment := 8; max_align := 16 |} in
  let a1 := set_head a [ set_used b0 10 ] in
  let a2 := set_head a [ set_used b0 26 ] in
  (head_in_range a b0 /\
   arena_alloc_aligned (libc_at 8192) (Some a) 10 8 = (4096, Some a1) /\
   arena_alloc_aligned (libc_at 8192) (Some a1) 10 8 = (4112, Some a2)) /\
  buffer b0 <= 4096 /\ 4096 + 10 <= 4112 /\
  4112 + 10 <= buffer b0 + capacity b0 /\
  length (head a2) = length (head a).
Proof.
  cbv zeta.
  assert (Hr : head_in_range
                 {| head := [ {| buffer := 4096; capacity := 1024;
                                 used := 0 |} ];
                    alignment := 8; max_align := 16 |}
                 {| buffer := 4096; capacity := 1024; used := 0 |}).
  { split; [exists 3; split; [lia | reflexivity]|].
    split; [exists 4; split; [lia | reflexivity]|].
    simpl. lia. }
  split; [split; [exact Hr | split; reflexivity]|].
  pose (b0 := {| buffer := 4096; capacity := 1024; used := 0 |}).
  pose (a0 := {| head := [ b0 ]; alignment := 8; max_align := 16 |}).
  apply (consecutive_allocations_are_disjoint (libc_at 8192) (libc_at 8192)
           a0 b0 [] 10 8 10 8 4096 4112
           (set_head a0 [ set_used b0 10 ]) (set_head a0 [ set_used b0 26 ])
           eq_refl Hr);
    try lia; try reflexivity; vm_compute; congruence.
Defined.

(** X14.  [arena_remaining] is a budget one can rely on: on an arena in
    range, a request of [size] bytes with [size + alignment - 1] at most
    [arena_remaining] is served from the head block, without asking the C
    library for anything. *)
Theorem remaining_is_a_sufficient_budget (libc : Libc) (a : Arena)
    (block : ArenaBlock) (rest : list ArenaBlock) (size align : Z) :
  head a = block :: rest -> head_in_range a block ->
  0 <= align < 2 ^ 64 -> 0 < size ->
  size + effective_alignment a align - 1 <= arena_remaining (Some a) ->
  exists p u,
    arena_alloc_aligned libc (Some a) size align
    = (p, Some (set_head a (set_used block u :: rest))) /\
    p <> NULL /\
    buffer block + used block <= p /\
    p + size = buffer block + u /\
    u <= capacity block.
Proof.
  intros Hh Hr Hal Hs Hrem.
  pose proof Hr as (Ha & Hm & Hb & Hu & Hend).
  pose proof (effective_alignment_pow2 a align Hal Ha Hm) as Hp.
  pose proof (effective_alignment_le_max a align) as Hle.
  pose proof (pow2_pos _ (proj1 (proj2 Hr))) as Hmax.
  unfold arena_remaining in Hrem. rewrite Hh in Hrem.
  rewrite u64_small in Hrem by lia.
  assert (Hpad : bump_padding a block align < effective_alignment a align).
  { unfold bump_padding. cbv zeta.
    rewrite (u64_small (buffer block + used block)) by lia.
    destruct Hp as (k & Hk & Hk2). rewrite Hk2 in *.
    pose proof (align_forward_bounds (buffer block + used block) k Hk).
    rewrite u64_small; lia. }
  assert (Hfit : used block + bump_padding a block align + size
                 <= capacity block) by lia.
  destruct (bump_served libc a block rest size align Hh Hr Hal Hs Hfit)
    as (p & u & Heq & _ & Hu' & _ & Hbd & Hsum).
  exists p, u. split; [exact Heq|]. unfold NULL. repeat split; lia.
Qed.

Lemma remaining_is_a_sufficient_budget_witness :
  let block := {| buffer := 4096; capacity := 1024; used := 10 |} in
  let a := {| head := [ block ]; alignment := 8; max_align := 16 |} in
  (head_in_range a block /\
   900 + effective_alignment a 16 - 1 <= arena_remaining (Some a)) /\
  exists p u,
    arena_alloc_aligned libc_none (Some a) 900 16
    = (p, Some (set_head a [ set_used block u ])) /\
    p <> NULL /\
    buffer block + used block <= p /\
    p + 900 = buffer block + u /\
    u <= capacity block.
Proof.
  cbv zeta.
  assert (Hr : head_in_range
                 {| head := [ {| buffer := 4096; capacity := 1024;
                                 used := 10 |} ];
                    alignment := 8; max_align := 16 |}
                 {| buffer := 4096; capacity := 1024; used := 10 |}).
  { split; [exists 3; split; [lia | reflexivity]|].
    split; [exists 4; split; [lia | reflexivity]|].
    simpl. lia. }
  split; [split; [exact Hr | vm_compute; congruence]|].
  pose (b0 := {| buffer := 4096; capacity := 1024; used := 10 |}).
  pose (a0 := {| head := [ b0 ]; alignment := 8; max_align := 16 |}).
  apply (remaining_is_a_sufficient_budget libc_none a0 b0 [] 900 16
           eq_refl Hr);
    try lia. vm_compute. congruence.
Defined.

(** ** Reset and reuse *)

Lemma fold_used_zero_acc l :
  forall acc, 0 <= acc < 2 ^ 64 ->
  fold_left (fun total b => u64 (total + used b))
    (map (fun b => set_used b 0) l) acc = acc.
Proof.
  induction l as [|b l IH]; intros acc Hacc; simpl; [reflexivity|].
  rewrite Z.add_0_r, u64_small by exact Hacc. apply IH. exact Hacc.
Qed.

(** X15.  After [arena_reset] the head block is handed out again from its
    start: when the head buffer is aligned for the request and the request
    fits the head's capacity, the allocation that follows a reset returns
    the start of the head buffer, adds no block, and [arena_used] is exactly
    the requested size. *)
Theorem reset_then_alloc (libc : Libc) (a : Arena) (block : ArenaBlock)
    (rest : list ArenaBlock) (size align : Z) :
  head a = block :: rest ->
  pow2 (alignment a) -> pow2 (max_align a) -> 0 <= align < 2 ^ 64 ->
  0 < buffer block ->
  buffer block + capacity block + max_align a <= 2 ^ 64 ->
  buffer block mod effective_alignment a align = 0 ->
  0 < size <= capacity block ->
  exists a1,
    arena_alloc_aligned libc (arena_reset (Some a)) size align
    = (buffer block, Some a1) /\
    arena_used (Some a1) = size /\
    length (head a1) = length (head a).
Proof.
  intros Hh Ha Hm Hal Hb Hend Hmod Hs.
  unfold arena_reset. rewrite Hh. simpl map.
  set (zeros := map (fun b => set_used b 0) rest).
  set (a0 := set_head a (set_used block 0 :: zeros)).
  pose proof (effective_alignment_pow2 a align Hal Ha Hm) as Hp.
  pose proof (effective_alignment_le_max a align) as Hle.
  pose proof (pow2_pos _ Hm) as Hmax.
  assert (Hfix : align_forward (buffer block) (effective_alignment a align)
                 = buffer block)
    by (apply align_forward_fixed; (assumption || lia)).
  assert (Hpad : bump_padding a0 (set_used block 0) align = 0).
  { unfold bump_padding. cbv zeta. simpl buffer. simpl used.
    change (effective_alignment a0 align) with (effective_alignment a align).
    rewrite Z.add_0_r, (u64_small (buffer block)) by lia.
    rewrite Hfix, Z.sub_diag. reflexivity. }
  assert (Hr : head_in_range a0 (set_used block 0)).
  { repeat split; simpl; (assumption || lia). }
  destruct (bump_served libc a0 (set_used block 0) zeros size align
              eq_refl Hr Hal (proj1 Hs))
    as (p & u & Heq & Hpeq & Hu & _ & _ & _).
  { rewrite Hpad. simpl. lia. }
  rewrite Hpad in Hu. simpl in Hu, Hpeq.
  change (effective_alignment a0 align) with (effective_alignment a align)
    in Hpeq.
  rewrite Z.add_0_r, Hfix in Hpeq. subst p.
  replace u with size in Heq by lia.
  eexists. split; [exact Heq|]. split.
  - unfold arena_used. simpl. rewrite u64_small by lia.
    apply fold_used_zero_acc. lia.
  - simpl. unfold zeros. rewrite length_map. reflexivity.
Qed.

Lemma reset_then_alloc_witness :
  let block := {| buffer := 8192; capacity := 200; used := 150 |} in
  let old := {| buffer := 4096; capacity := 100; used := 50 |} in
  let a := {| head := [ block; old ]; alignment := 8; max_align := 16 |} in
  (pow2 (alignment a) /\ pow2 (max_align a) /\
   buffer block mod effective_alignment a 8 = 0 /\
   0 < 200 <= capacity block) /\
  exists a1,
    arena_alloc_aligned libc_none (arena_reset (Some a)) 200 8
    = (buffer block, Some a1) /\
    arena_used (Some a1) = 200 /\
    length (head a1) = length (head a).
Proof.
  cbv zeta.
  pose (block := {| buffer := 8192; capacity := 200; used := 150 |}).
  pose (old := {| buffer := 4096; capacity := 100; used := 50 |}).
  pose (a := {| head := [ block; old ]; alignment := 8; max_align := 16 |}).
  assert (H8 : pow2 (alignment a)) by (exists 3; split; [lia | reflexivity]).
  assert (H16 : pow2 (max_align a)) by (exists 4; split; [lia | reflexivity]).
  split.
  - split; [exact H8|]. split; [exact H16|].
    split; [reflexivity | simpl; lia].
  - apply (reset_then_alloc libc_none a block [ old ] 200 8 eq_refl H8 H16);
      try reflexivity; simpl; lia.
Defined.

(** ** Resizing the last allocation *)

(** X16.  The allocation made last in the head block is resized where it
    is: after a request served from the head block returned [p],
    [arena_realloc] of [p] to any non-zero size that still fits the block
    returns [p] again, sets the head's counter to the offset of [p] plus the
    new size, leaves every byte of memory alone and needs nothing from the C
    library. *)
Theorem last_allocation_resizes_in_place (libc libc' : Libc) (a : Arena)
    (block : ArenaBlock) (rest : list ArenaBlock)
    (size align new_size p : Z) (a1 : Arena) (m : memory) :
  head a = block :: rest -> head_in_range a block ->
  0 <= align < 2 ^ 64 -> 0 < size ->
  used block + bump_padding a block align + size <= capacity block ->
  arena_alloc_aligned libc (Some a) size align = (p, Some a1) ->
  0 < new_size -> (p - buffer block) + new_size <= capacity block ->
  arena_realloc libc' (Some a1) p size new_size m
  = Some (p,
          Some (set_head a
                  (set_used block ((p - buffer block) + new_size) :: rest)),
          m).
Proof.
  intros Hh Hr Hal Hs Hfit He Hn Hnew.
  destruct (bump_served libc a block rest size align Hh Hr Hal Hs Hfit)
    as (q & u & Heq & _ & Hu & Hpad & Hbd & Hsum).
  rewrite Heq in He. injection He as <- <-.
  destruct Hr as (_ & Hm & Hb & Hused & Hend).
  pose proof (pow2_pos _ Hm) as Hmax.
  unfold arena_realloc.
  destruct (Z.eqb_spec q NULL) as [E|_]; [unfold NULL in E; lia|].
  destruct (Z.eqb_spec new_size 0) as [E|_]; [lia|].
  cbn [orb head set_head buffer used capacity set_used]. cbv zeta.
  rewrite (u64_small (q + size)) by lia.
  rewrite (u64_small (buffer block + u)) by lia.
  rewrite (u64_small (q - buffer block)) by lia.
  rewrite (u64_small (q - buffer block + new_size)) by lia.
  destruct (Z.eqb_spec (q + size) (buffer block + u)) as [_|E]; [|lia].
  destruct (Z.leb_spec (q - buffer block + new_size) (capacity block))
    as [_|E]; [|lia].
  reflexivity.
Qed.

Lemma last_allocation_resizes_in_place_witness :
  let block := {| buffer := 4096; capacity := 1024; used := 10 |} in
  let a := {| head := [ block ]; alignment := 8; max_align := 16 |} in
  let a1 := set_head a [ set_used block 116 ] in
  (head_in_range a block /\
   arena_alloc_aligned libc_none (Some a) 100 8 = (4112, Some a1) /\
   (4112 - buffer block) + 40 <= capacity block) /\
  arena_realloc libc_none (Some a1) 4112 100 40 zero_memory
  = Some (4112,
          Some (set_head a [ set_used block ((4112 - buffer block) + 40) ]),
          zero_memory).
Proof.
  cbv zeta.
  pose (block := {| buffer := 4096; capacity := 1024; used := 10 |}).
  pose (a := {| head := [ block ]; alignment := 8; max_align := 16 |}).
  assert (Hr : head_in_range a block).
  { split; [exists 3; split; [lia | reflexivity]|].
    split; [exists 4; split; [lia | reflexivity]|].
    simpl. lia. }
  split; [split; [exact Hr | split; [reflexivity | simpl; lia]]|].
  apply (last_allocation_resizes_in_place libc_none libc_none a block []
           100 8 40 4112 (set_head a [ set_used block 116 ]) zero_memory
           eq_refl Hr);
    try reflexivity; try (simpl; lia); vm_compute; congruence.
Defined.

(** ** What the calls write to memory *)

Lemma alloc_zeroed_spec libc arena size m p arena' m' :
  arena_alloc_zeroed libc arena size m = (p, arena', m') ->
  arena_alloc libc arena size = (p, arena') /\
  (p <> NULL -> forall addr, p <= addr < p + size -> m' addr = x00) /\
  (forall addr, ~ (p <= addr < p + size) -> m' addr = m addr).
Proof.
  unfold arena_alloc_zeroed.
  destruct (arena_alloc libc arena size) as [q r].
  destruct (Z.eqb_spec q NULL) as [E|E]; intros [= <- <- <-].
  - split; [reflexivity|]. split; [contradiction | reflexivity].
  - split; [reflexivity|]. unfold memset. split.
    + intros _ addr Hin.
      destruct (Z.leb_spec q addr), (Z.ltb_spec addr (q + size));
        (reflexivity || lia).
    + intros addr Hout.
      destruct (Z.leb_spec q addr), (Z.ltb_spec addr (q + size));
        (reflexivity || lia).
Qed.

Lemma alloc_zeroed_in_head libc a block rest size m :
  head a = block :: rest -> head_in_range a block -> 0 < size ->
  used block + bump_padding a block (alignment a) + size <= capacity block ->
  exists p u m',
    arena_alloc_zeroed libc (Some a) size m
    = (p, Some (set_head a (set_used block u :: rest)), m') /\
    arena_alloc libc (Some a) size
    = (p, Some (set_head a (set_used block u :: rest))) /\
    p <> NULL /\
    buffer block + used block <= p /\
    p + size = buffer block + u /\
    u <= capacity block /\
    (forall addr, p <= addr < p + size -> m' addr = x00) /\
    (forall addr, ~ (p <= addr < p + size) -> m' addr = m addr).
Proof.
  intros Hh Hr Hs Hfit.
  assert (Hal : 0 <= alignment a < 2 ^ 64).
  { destruct Hr as (Ha & _). pose proof (pow2_pos _ Ha). lia. }
  destruct (bump_served libc a block rest size (alignment a) Hh Hr Hal Hs Hfit)
    as (p & u & Heq & _ & Hu & _ & Hbd & Hsum).
  destruct Hr as (_ & _ & Hb & Hused & _).
  assert (Hp : p <> NULL) by (unfold NULL; lia).
  destruct (arena_alloc_zeroed libc (Some a) size m) as [[q r] m'] eqn:E.
  pose proof (alloc_zeroed_spec _ _ _ _ _ _ _ E) as (Ha & Hz & Hf).
  unfold arena_alloc in Ha. rewrite Heq in Ha. injection Ha as <- <-.
  exists p, u, m'. split; [reflexivity|]. split; [exact Heq|].
  split; [exact Hp|]. split; [lia|]. split; [exact Hsum|]. split; [lia|].
  split; [apply Hz; exact Hp | exact Hf].
Qed.

(** X17.  On an arena in range, a request that fits the head block is
    served by [arena_alloc_zeroed] exactly as by [arena_alloc]: the same
    non-null pointer and the same arena; the range returned lies inside the
    head block's buffer, every byte of it reads zero afterwards, and no byte
    outside it is changed. *)
Theorem alloc_zeroed_fills_range (libc : Libc) (a : Arena)
    (block : ArenaBlock) (rest : list ArenaBlock) (size : Z) (m : memory) :
  head a = block :: rest -> head_in_range a block -> 0 < size ->
  used block + bump_padding a block (alignment a) + size <= capacity block ->
  exists p u m',
    arena_alloc_zeroed libc (Some a) size m
    = (p, Some (set_head a (set_used block u :: rest)), m') /\
    arena_alloc libc (Some a) size
    = (p, Some (set_head a (set_used block u :: rest))) /\
    p <> NULL /\
    buffer block + used block <= p /\
    p + size = buffer block + u /\
    u <= capacity block /\
    (forall addr, p <= addr < p + size -> m' addr = x00) /\
    (forall addr, ~ (p <= addr < p + size) -> m' addr = m addr).
Proof.
  intros Hh Hr Hs Hfit.
  assert (Hal : 0 <= alignment a < 2 ^ 64).
  { destruct Hr as (Ha & _). pose proof (pow2_pos _ Ha). lia. }
  destruct (bump_served libc a block rest size (alignment a) Hh Hr Hal Hs Hfit)
    as (p & u & Heq & _ & Hu & _ & Hbd & Hsum).
  destruct Hr as (_ & _ & Hb & Hused & _).
  assert (Hp : p <> NULL) by (unfold NULL; lia).
  destruct (arena_alloc_zeroed libc (Some a) size m) as [[q r] m'] eqn:E.
  pose proof (alloc_zeroed_spec _ _ _ _ _ _ _ E) as (Ha & Hz & Hf).
  unfold arena_alloc in Ha. rewrite Heq in Ha. injection Ha as <- <-.
  exists p, u, m'. split; [reflexivity|]. split; [exact Heq|].
  split; [exact Hp|]. split; [lia|]. split; [exact Hsum|]. split; [lia|].
  split; [apply Hz; exact Hp | exact Hf].
Qed.

Lemma alloc_zeroed_fills_range_witness :
  let block := {| buffer := 4096; capacity := 1024; used := 10 |} in
  let a := {| head := [ block ]; alignment := 8; max_align := 16 |} in
  (head_in_range a block /\
   used block + bump_padding a block (alignment a) + 16 <= capacity block) /\
  exists p u m',
    arena_alloc_zeroed libc_none (Some a) 16 zero_memory
    = (p, Some (set_head a [ set_used block u ]), m') /\
    arena_alloc libc_none (Some a) 16
    = (p, Some (set_head a [ set_used block u ])) /\
    p <> NULL /\
    buffer block + used block <= p /\
    p + 16 = buffer block + u /\
    u <= capacity block /\
    (forall addr, p <= addr < p + 16 -> m' addr = x00) /\
    (forall addr, ~ (p <= addr < p + 16) -> m' addr = zero_memory addr).
Proof.
  cbv zeta.
  pose (block := {| buffer := 4096; capacity := 1024; used := 10 |}).
  pose (a := {| head := [ block ]; alignment := 8; max_align := 16 |}).
  assert (Hr : head_in_range a block).
  { split; [exists 3; split; [lia | reflexivity]|].
    split; [exists 4; split; [lia | reflexivity]|].
    simpl. lia. }
  assert (Hf : used block + bump_padding a block (alignment a) + 16
               <= capacity block) by (vm_compute; congruence).
  split; [split; [exact Hr | exact Hf]|].
  apply (alloc_zeroed_fills_range libc_none a block [] 16 zero_memory
           eq_refl Hr); [lia | exact Hf].
Defined.

(** X18.  On an arena in range, when [count * size] does not overflow and
    fits the head block, [arena_calloc] allocates exactly [count * size]
    bytes, as [arena_alloc] would: the range lies inside the head block's
    buffer, every one of its bytes reads zero, and no byte outside it is
    changed. *)
Theorem calloc_zero_fills_product (libc : Libc) (a : Arena)
    (block : ArenaBlock) (rest : list ArenaBlock) (count size : Z)
    (m : memory) :
  head a = block :: rest -> head_in_range a block ->
  0 < count -> 0 < size ->
  used block + bump_padding a block (alignment a) + count * size
  <= capacity block ->
  exists p u m',
    arena_calloc libc (Some a) count size m
    = (p, Some (set_head a (set_used block u :: rest)), m') /\
    arena_alloc libc (Some a) (count * size)
    = (p, Some (set_head a (set_used block u :: rest))) /\
    p <> NULL /\
    buffer block + used block <= p /\
    p + count * size = buffer block + u /\
    u <= capacity block /\
    (forall i, 0 <= i < count * size -> m' (p + i) = x00) /\
    (forall addr, ~ (p <= addr < p + count * size) -> m' addr = m addr).
Proof.
  intros Hh Hr Hc Hs Hfit.
  assert (Hprod : 0 < count * size) by nia.
  assert (Hlt : count * size < 2 ^ 64).
  { destruct Hr as (_ & Hm & Hb & Hu & Hend).
    pose proof (pow2_pos _ Hm).
    assert (0 <= bump_padding a block (alignment a))
      by (unfold bump_padding; apply u64_range).
    lia. }
  destruct (alloc_zeroed_in_head libc a block rest (count * size) m
              Hh Hr Hprod Hfit)
    as (p & u & m' & Hz & Ha & Hp & Hlo & Hsum & Hu & Hzero & Hframe).
  exists p, u, m'. unfold arena_calloc. cbv zeta.
  rewrite u64_small by lia.
  split; [exact Hz|]. split; [exact Ha|]. split; [exact Hp|].
  split; [exact Hlo|]. split; [exact Hsum|]. split; [exact Hu|].
  split; [|exact Hframe].
  intros i Hi. apply Hzero. lia.
Qed.

Lemma calloc_zero_fills_product_witness :
  let block := {| buffer := 4096; capacity := 1024; used := 10 |} in
  let a := {| head := [ block ]; alignment := 8; max_align := 16 |} in
  (head_in_range a block /\
   used block + bump_padding a block (alignment a) + 10 * 4
   <= capacity block) /\
  exists p u m',
    arena_calloc libc_none (Some a) 10 4 zero_memory
    = (p, Some (set_head a [ set_used block u ]), m') /\
    arena_alloc libc_none (Some a) (10 * 4)
    = (p, Some (set_head a [ set_used block u ])) /\
    p <> NULL /\
    buffer block + used block <= p /\
    p + 10 * 4 = buffer block + u /\
    u <= capacity block /\
    (forall i, 0 <= i < 10 * 4 -> m' (p + i) = x00) /\
    (forall addr, ~ (p <= addr < p + 10 * 4) -> m' addr = zero_memory addr).
Proof.
  cbv zeta.
  pose (block := {| buffer := 4096; capacity := 1024; used := 10 |}).
  pose (a := {| head := [ block ]; alignment := 8; max_align := 16 |}).
  assert (Hr : head_in_range a block).
  { split; [exists 3; split; [lia | reflexivity]|].
    split; [exists 4; split; [lia | reflexivity]|].
    simpl. lia. }
  assert (Hf : used block + bump_padding a block (alignment a) + 10 * 4
               <= capacity block) by (vm_compute; congruence).
  split; [split; [exact Hr | exact Hf]|].
  apply (calloc_zero_fills_product libc_none a block [] 10 4 zero_memory
           eq_refl Hr); [lia | lia | exact Hf].
Defined.

Lemma store_bytes_outside bs :
  forall m dst addr,
    addr < dst \/ dst + Z.of_nat (length bs) <= addr ->
    store_bytes m dst bs addr = m addr.
Proof.
  induction bs as [|b bs IH]; intros m dst addr Hout; simpl; [reflexivity|].
  rewrite IH by (simpl length in Hout; lia).
  destruct (Z.eqb_spec addr dst) as [E|_]; [|reflexivity].
  simpl length in Hout. lia.
Qed.

Lemma load_store_bytes bs :
  forall m dst, load_bytes (store_bytes m dst bs) dst (length bs) = bs.
Proof.
  induction bs as [|b bs IH]; intros m dst; simpl; [reflexivity|].
  rewrite IH. f_equal.
  rewrite store_bytes_outside by lia.
  rewrite Z.eqb_refl. reflexivity.
Qed.

(** X19.  [arena_strdup] allocates [strlen(str) + 1] bytes with
    [arena_alloc]; when it succeeds, reading that many bytes back from the
    returned address gives the string followed by its terminating NUL, and
    no byte outside the copy is changed. *)
Theorem strdup_copies_string (libc : Libc) (arena : option Arena)
    (s : list byte) (m : memory) (dup : Z) (arena' : option Arena)
    (m' : memory) :
  arena_strdup libc arena (Some s) m = (dup, arena', m') ->
  dup <> NULL ->
  arena_alloc libc arena (u64 (strlen s + 1)) = (dup, arena') /\
  load_bytes m' dup (length s + 1) = s ++ [x00] /\
  (forall addr, addr < dup \/ dup + strlen s + 1 <= addr ->
                m' addr = m addr).
Proof.
  unfold arena_strdup. cbv zeta.
  destruct (arena_alloc libc arena (u64 (strlen s + 1))) as [q r].
  destruct (Z.eqb_spec q NULL) as [E|E]; intros [= <- <- <-] Hd;
    [contradiction|].
  split; [reflexivity|]. split.
  - replace (length s + 1)%nat with (length (s ++ [x00]))
      by (rewrite length_app; reflexivity).
    apply load_store_bytes.
  - intros addr Hout. apply store_bytes_outside.
    rewrite length_app. simpl length. unfold strlen in Hout. lia.
Qed.

Lemma strdup_copies_string_witness :
  let s := [x48; x69] in
  let m' := store_bytes zero_memory 4096 (s ++ [x00]) in
  let arena' :=
    Some {| head := [ {| buffer := 4096; capacity := 1024; used := 3 |} ];
            alignment := 8; max_align := 16 |} in
  (arena_strdup libc_none (Some arena1024) (Some s) zero_memory
   = (4096, arena', m') /\ 4096 <> NULL) /\
  arena_alloc libc_none (Some arena1024) (u64 (strlen s + 1))
  = (4096, arena') /\
  load_bytes m' 4096 (length s + 1) = s ++ [x00] /\
  (forall addr, addr < 4096 \/ 4096 + strlen s + 1 <= addr ->
                m' addr = zero_memory addr).
Proof.
  cbv zeta.
  assert (H : arena_strdup libc_none (Some arena1024) (Some [x48; x69])
                zero_memory
              = (4096,
                 Some {| head := [ {| buffer := 4096; capacity := 1024;
                                      used := 3 |} ];
                         alignment := 8; max_align := 16 |},
                 store_bytes zero_memory 4096 ([x48; x69] ++ [x00])))
    by reflexivity.
  assert (Hn : 4096 <> NULL) by (unfold NULL; lia).
  split; [split; [exact H | exact Hn]|].
  exact (strdup_copies_string _ _ _ _ _ _ _ H Hn).
Defined.

(** X20.  [arena_strndup] copies the first [min (strlen str) n] characters
    of the string and terminates the copy with a NUL: it allocates that many
    bytes plus one, and reading them back gives the prefix followed by
    NUL. *)
Theorem strndup_copies_prefix (libc : Libc) (arena : option Arena)
    (s : list byte) (n : Z) (m : memory) (dup : Z) (arena' : option Arena)
    (m' : memory) :
  0 <= n ->
  arena_strndup libc arena (Some s) n m = (dup, arena', m') ->
  dup <> NULL ->
  let k := Z.to_nat (Z.min (strlen s) n) in
  arena_alloc libc arena (u64 (Z.of_nat k + 1)) = (dup, arena') /\
  length (firstn k s) = k /\
  load_bytes m' dup (k + 1) = firstn k s ++ [x00] /\
  (forall addr, addr < dup \/ dup + Z.of_nat k + 1 <= addr ->
                m' addr = m addr).
Proof.
  intros Hn. unfold arena_strndup. cbv zeta.
  assert (Hlen : (if strlen s >? n then n else strlen s) = Z.min (strlen s) n).
  { destruct (Z.gtb_spec (strlen s) n); lia. }
  rewrite Hlen.
  assert (Hk : Z.of_nat (Z.to_nat (Z.min (strlen s) n)) = Z.min (strlen s) n).
  { apply Z2Nat.id. unfold strlen. lia. }
  assert (Hf : length (firstn (Z.to_nat (Z.min (strlen s) n)) s)
               = Z.to_nat (Z.min (strlen s) n)).
  { rewrite length_firstn. unfold strlen. lia. }
  rewrite Hk.
  destruct (arena_alloc libc arena (u64 (Z.min (strlen s) n + 1))) as [q r].
  destruct (Z.eqb_spec q NULL) as [E|E]; intros [= <- <- <-] Hd;
    [contradiction|].
  split; [reflexivity|]. split; [exact Hf|]. split.
  - set (pre := firstn (Z.to_nat (Z.min (strlen s) n)) s) in *.
    replace (Z.to_nat (Z.min (strlen s) n) + 1)%nat
      with (length (pre ++ [x00]))
      by (rewrite length_app, Hf; reflexivity).
    apply load_store_bytes.
  - intros addr Hout. apply store_bytes_outside.
    rewrite length_app, Hf. simpl length. lia.
Qed.

Lemma strndup_copies_prefix_witness :
  let s := [x48; x69; x21] in
  let m' := store_bytes zero_memory 4096 ([x48; x69] ++ [x00]) in
  let arena' :=
    Some {| head := [ {| buffer := 4096; capacity := 1024; used := 3 |} ];
            alignment := 8; max_align := 16 |} in
  let k := Z.to_nat (Z.min (strlen s) 2) in
  (0 <= 2 /\
   arena_strndup libc_none (Some arena1024) (Some s) 2 zero_memory
   = (4096, arena', m') /\ 4096 <> NULL) /\
  arena_alloc libc_none (Some arena1024) (u64 (Z.of_nat k + 1))
  = (4096, arena') /\
  length (firstn k s) = k /\
  load_bytes m' 4096 (k + 1) = firstn k s ++ [x00] /\
  (forall addr, addr < 4096 \/ 4096 + Z.of_nat k + 1 <= addr ->
                m' addr = zero_memory addr).
Proof.
  cbv zeta.
  assert (H : arena_strndup libc_none (Some arena1024)
                (Some [x48; x69; x21]) 2 zero_memory
              = (4096,
                 Some {| head := [ {| buffer := 4096; capacity := 1024;
                                      used := 3 |} ];
                         alignment := 8; max_align := 16 |},
                 store_bytes zero_memory 4096 ([x48; x69] ++ [x00])))
    by reflexivity.
  assert (Hn : 4096 <> NULL) by (unfold NULL; lia).
  assert (H2 : 0 <= 2) by lia.
  split; [split; [exact H2 | split; [exact H | exact Hn]]|].
  exact (strndup_copies_prefix _ _ _ _ _ _ _ _ H2 H Hn).
Defined.

(** X21.  [arena_realloc] keeps the contents: when it returns a non-null
    pointer, the first [min old_size new_size] bytes at the returned address
    are the bytes that were at [ptr], whether the allocation was resized in
    place or copied (the copy being one [memcpy] allows: the destination
    does not overlap the source). *)
Theorem realloc_preserves_contents (libc : Libc) (a : Arena)
    (ptr old_size new_size : Z) (m : memory) (q : Z) (r : option Arena)
    (m' : memory) :
  arena_realloc libc (Some a) ptr old_size new_size m = Some (q, r, m') ->
  q <> NULL ->
  q = ptr \/ q + Z.min old_size new_size <= ptr
          \/ ptr + Z.min old_size new_size <= q ->
  forall i, 0 <= i < Z.min old_size new_size -> m' (q + i) = m (ptr + i).
Proof.
  intros H Hq _ i Hi. unfold arena_realloc in H.
  destruct ((ptr =? NULL) || (new_size =? 0)).
  { injection H as <- _ _. contradiction. }
  destruct (head a) as [|block rest]; [discriminate|].
  cbv zeta in H.
  assert (Hcopy : forall q0 r0,
             (if q0 =? NULL then Some (q0, r0, m)
              else Some (q0, r0,
                         memcpy m q0 ptr
                           (if old_size <? new_size then old_size
                            else new_size))) = Some (q, r, m') ->
             m' (q + i) = m (ptr + i)).
  { intros q0 r0. destruct (Z.eqb_spec q0 NULL) as [E|E]; intros [= <- <- <-];
      [contradiction|].
    unfold memcpy.
    assert (Hmin : (if old_size <? new_size then old_size else new_size)
                   = Z.min old_size new_size)
      by (destruct (Z.ltb_spec old_size new_size); lia).
    rewrite Hmin.
    destruct (Z.leb_spec q0 (q0 + i)), (Z.ltb_spec (q0 + i)
                                           (q0 + Z.min old_size new_size));
      try lia.
    simpl. f_equal. lia. }
  destruct (arena_alloc libc (Some a) new_size) as [q0 r0].
  destruct (_ =? u64 (buffer block + used block)).
  - destruct (_ <=? capacity block).
    + injection H as <- _ <-. reflexivity.
    + eapply Hcopy. exact H.
  - eapply Hcopy. exact H.
Qed.

Lemma realloc_preserves_contents_witness :
  let block := {| buffer := 4096; capacity := 1024; used := 16 |} in
  let a := {| head := [ block ]; alignment := 8; max_align := 16 |} in
  let m := store_bytes zero_memory 4096 [x48; x69] in
  let r := Some (set_head a [ set_used block 48 ]) in
  let m' := memcpy m 4112 4096 8 in
  (arena_realloc libc_none (Some a) 4096 8 32 m = Some (4112, r, m') /\
   4112 <> NULL /\
   (4112 = 4096 \/ 4112 + Z.min 8 32 <= 4096 \/ 4096 + Z.min 8 32 <= 4112)) /\
  forall i, 0 <= i < Z.min 8 32 -> m' (4112 + i) = m (4096 + i).
Proof.
  cbv zeta.
  pose (block := {| buffer := 4096; capacity := 1024; used := 16 |}).
  pose (a := {| head := [ block ]; alignment := 8; max_align := 16 |}).
  pose (m := store_bytes zero_memory 4096 [x48; x69]).
  assert (H : arena_realloc libc_none (Some a) 4096 8 32 m
              = Some (4112, Some (set_head a [ set_used block 48 ]),
                      memcpy m 4112 4096 8)) by reflexivity.
  assert (Hn : 4112 <> NULL) by (unfold NULL; lia).
  assert (Hd : 4112 = 4096 \/ 4112 + Z.min 8 32 <= 4096
               \/ 4096 + Z.min 8 32 <= 4112) by lia.
  split; [split; [exact H | split; [exact Hn | exact Hd]]|].
  exact (realloc_preserves_contents _ _ _ _ _ _ _ _ _ H Hn Hd).
Defined.

(** * The single-buffer allocator *)

Lemma sb_set_used_used a : SingleBuffer.set_used a (SingleBuffer.used a) = a.
Proof. destruct a. reflexivity. Qed.

Lemma sb_alloc_aligned_frame a size align p r :
  SingleBuffer.arena_alloc_aligned (Some a) size align = (p, r) ->
  exists u,
    r = Some (SingleBuffer.set_used a u) /\
    (0 <= SingleBuffer.used a <= SingleBuffer.capacity a ->
     0 <= u <= SingleBuffer.capacity a).
Proof.
  unfold SingleBuffer.arena_alloc_aligned.
  destruct (size =? 0).
  { intros [= <- <-]. exists (SingleBuffer.used a).
    rewrite sb_set_used_used. split; [reflexivity | trivial]. }
  cbv zeta.
  match goal with
  | |- context [u64 (SingleBuffer.used a + ?pad + size)] => set (padding := pad)
  end.
  destruct (Z.gtb_spec (u64 (SingleBuffer.used a + padding + size))
              (SingleBuffer.capacity a)) as [Hgt|Hle]; intros [= <- <-].
  - exists (SingleBuffer.used a).
    rewrite sb_set_used_used. split; [reflexivity | trivial].
  - eexists. split; [reflexivity|]. intros _.
    rewrite u64_add_idemp_r, Z.add_assoc.
    split; [apply u64_range | exact Hle].
Qed.

Lemma sb_exec_alloc_frame c a m a' m' p :
  SingleBuffer.exec_alloc c a m = (a', m', p) ->
  exists u,
    a' = SingleBuffer.set_used a u /\
    (0 <= SingleBuffer.used a <= SingleBuffer.capacity a ->
     0 <= u <= SingleBuffer.capacity a).
Proof.
  assert (Hsame : exists u,
             a = SingleBuffer.set_used a u /\
             (0 <= SingleBuffer.used a <= SingleBuffer.capacity a ->
              0 <= u <= SingleBuffer.capacity a)).
  { exists (SingleBuffer.used a). rewrite sb_set_used_used.
    split; [reflexivity | trivial]. }
  destruct c; unfold SingleBuffer.exec_alloc, SingleBuffer.after.
  - destruct (SingleBuffer.arena_alloc_aligned _ _ _) as [q r] eqn:E.
    apply sb_alloc_aligned_frame in E as (u & -> & Hu).
    intros [= <- _ _]. exists u. split; [reflexivity | exact Hu].
  - destruct (SingleBuffer.arena_alloc _ _) as [q r] eqn:E.
    apply sb_alloc_aligned_frame in E as (u & -> & Hu).
    intros [= <- _ _]. exists u. split; [reflexivity | exact Hu].
  - unfold SingleBuffer.arena_alloc_zeroed.
    destruct (SingleBuffer.arena_alloc _ _) as [q r] eqn:E.
    apply sb_alloc_aligned_frame in E as (u & -> & Hu).
    destruct (q =? NULL); intros [= <- _ _]; exists u;
      (split; [reflexivity | exact Hu]).
  - unfold SingleBuffer.arena_calloc. cbv zeta.
    destruct (SingleBuffer.arena_alloc _ _) as [q r] eqn:E.
    apply sb_alloc_aligned_frame in E as (u & -> & Hu).
    destruct (q =? NULL); intros [= <- _ _]; exists u;
      (split; [reflexivity | exact Hu]).
  - unfold SingleBuffer.arena_realloc.
    destruct ((ptr =? NULL) || (new_size =? 0)).
    { intros [= <- _ _]. exact Hsame. }
    cbv zeta.
    destruct (SingleBuffer.arena_alloc _ _) as [q r] eqn:E.
    apply sb_alloc_aligned_frame in E as (u & -> & Hu).
    destruct (_ =? u64 (SingleBuffer.buffer a + SingleBuffer.used a)).
    + destruct (Z.leb_spec
                  (u64 (u64 (ptr - SingleBuffer.buffer a) + new_size))
                  (SingleBuffer.capacity a)) as [Hle|_].
      * intros [= <- _ _]. eexists. split; [reflexivity|].
        intros _. split; [apply u64_range | exact Hle].
      * destruct (q =? NULL); intros [= <- _ _]; exists u;
          (split; [reflexivity | exact Hu]).
    + destruct (q =? NULL); intros [= <- _ _]; exists u;
        (split; [reflexivity | exact Hu]).
  - unfold SingleBuffer.arena_strdup. destruct str as [s|].
    + cbv zeta. destruct (SingleBuffer.arena_alloc _ _) as [q r] eqn:E.
      apply sb_alloc_aligned_frame in E as (u & -> & Hu).
      destruct (q =? NULL); intros [= <- _ _]; exists u;
        (split; [reflexivity | exact Hu]).
    + intros [= <- _ _]. exact Hsame.
  - unfold SingleBuffer.arena_strndup. destruct str as [s|].
    + cbv zeta. destruct (SingleBuffer.arena_alloc _ _) as [q r] eqn:E.
      apply sb_alloc_aligned_frame in E as (u & -> & Hu).
      destruct (q =? NULL); intros [= <- _ _]; exists u;
        (split; [reflexivity | exact Hu]).
    + intros [= <- _ _]. exact Hsame.
Qed.

(** X22.  In the single-buffer allocator an allocating call changes nothing
    of the arena but [used], and keeps [0 <= used <= capacity], whatever the
    size requested: the test before the bump and the bump use the same
    64-bit sum. *)
Theorem single_buffer_keeps_bound (c : SingleBuffer.alloc_call)
    (a : SingleBuffer.Arena) (m : memory) :
  0 <= SingleBuffer.used a <= SingleBuffer.capacity a ->
  let a' := fst (fst (SingleBuffer.exec_alloc c a m)) in
  a' = SingleBuffer.set_used a (SingleBuffer.used a') /\
  0 <= SingleBuffer.used a' <= SingleBuffer.capacity a'.
Proof.
  intros Hok. cbv zeta.
  destruct (SingleBuffer.exec_alloc c a m) as [[a' m'] p] eqn:E.
  apply sb_exec_alloc_frame in E as (u & -> & Hu). simpl.
  split; [reflexivity | apply Hu; exact Hok].
Qed.

Lemma single_buffer_keeps_bound_witness :
  let c := SingleBuffer.Alloc (2 ^ 64 - 1) in
  let a := SingleBuffer.set_used SingleBuffer.arena1024 8 in
  let a' := fst (fst (SingleBuffer.exec_alloc c a zero_memory)) in
  0 <= SingleBuffer.used a <= SingleBuffer.capacity a /\
  a' = SingleBuffer.set_used a (SingleBuffer.used a') /\
  0 <= SingleBuffer.used a' <= SingleBuffer.capacity a'.
Proof.
  cbv zeta.
  assert (H : 0 <= SingleBuffer.used
                     (SingleBuffer.set_used SingleBuffer.arena1024 8)
              <= SingleBuffer.capacity
                   (SingleBuffer.set_used SingleBuffer.arena1024 8))
    by (simpl; lia).
  split; [exact H|].
  exact (single_buffer_keeps_bound (SingleBuffer.Alloc (2 ^ 64 - 1))
           (SingleBuffer.set_used SingleBuffer.arena1024 8) zero_memory H).
Defined.

Lemma sb_run_frame l :
  forall a m, exists u,
    fst (SingleBuffer.run l a m) = SingleBuffer.set_used a u.
Proof.
  induction l as [|c l IH]; intros a m; simpl.
  - exists (SingleBuffer.used a). rewrite sb_set_used_used. reflexivity.
  - destruct (SingleBuffer.exec_alloc c a m) as [[a1 m1] p] eqn:E.
    apply sb_exec_alloc_frame in E as (u & -> & _).
    destruct (IH (SingleBuffer.set_used a u) m1) as (v & ->).
    exists v. reflexivity.
Qed.

(** X23.  In the single-buffer allocator a temporary scope always rolls
    back: whatever allocating calls are made between [arena_temp_begin] and
    [arena_temp_end], the arena is afterwards exactly as it was at the
    begin, and so is [arena_used]. *)
Theorem single_buffer_scope_rolls_back (l : list SingleBuffer.alloc_call)
    (a : SingleBuffer.Arena) (m : memory) :
  let temp := SingleBuffer.arena_temp_begin (Some a) in
  let a' := SingleBuffer.arena_temp_end temp (fst (SingleBuffer.run l a m)) in
  a' = a /\
  SingleBuffer.arena_used (Some a') = SingleBuffer.arena_used (Some a).
Proof.
  cbv zeta. destruct (sb_run_frame l a m) as (u & ->).
  assert (H : SingleBuffer.arena_temp_end
                (SingleBuffer.arena_temp_begin (Some a))
                (SingleBuffer.set_used a u) = a)
    by (destruct a; reflexivity).
  rewrite H. split; reflexivity.
Qed.

Lemma land_not64_diag y : 0 <= y < 2 ^ 64 -> Z.land y (not64 y) = 0.
Proof.
  intros Hy. unfold not64. rewrite u64_ones, Z.land_assoc.
  rewrite Z.land_lnot_diag. apply Z.land_0_l.
Qed.

(** The null address is aligned for every alignment value. *)
Lemma align_forward_null al : align_forward 0 al = 0.
Proof.
  unfold align_forward. rewrite Z.add_0_l.
  rewrite (u64_small (u64 (al - 1))) by apply u64_range.
  apply land_not64_diag. apply u64_range.
Qed.

Lemma sb_alloc_on_destroyed a size align :
  SingleBuffer.buffer a = NULL -> SingleBuffer.capacity a = 0 ->
  SingleBuffer.used a = 0 ->
  SingleBuffer.arena_alloc_aligned (Some a) size align = (NULL, Some a).
Proof.
  intros Hb Hc Hu. unfold SingleBuffer.arena_alloc_aligned.
  destruct (size =? 0); [reflexivity|]. cbv zeta.
  rewrite Hb, Hc, Hu. unfold NULL. simpl (0 + 0).
  change (u64 0) with 0. rewrite align_forward_null.
  simpl (0 - 0). change (u64 0) with 0. simpl (0 + 0 + size).
  destruct (Z.gtb_spec (u64 size) 0) as [_|Hle]; [reflexivity|].
  pose proof (u64_range size) as Hr.
  assert (Hz : u64 size = 0) by lia.
  rewrite (Z.add_0_l size), Hz. simpl (0 + 0). change (u64 0) with 0.
  assert (Hsame : SingleBuffer.set_used a 0 = a)
    by (rewrite <- Hu; apply sb_set_used_used).
  rewrite Hsame. reflexivity.
Qed.

(** X24.  In the single-buffer allocator [arena_destroy] of an arena that
    owns a buffer clears the buffer pointer, the capacity and the counters;
    on the destroyed arena every allocation is refused with [NULL], whatever
    size and alignment are asked for, [arena_used] and [arena_remaining] are
    0, and destroying it again changes nothing. *)
Theorem single_buffer_destroyed_is_invalid (a : SingleBuffer.Arena)
    (size align count : Z) (m : memory) :
  SingleBuffer.buffer a <> NULL ->
  exists d,
    SingleBuffer.arena_destroy (Some a) = Some d /\
    SingleBuffer.buffer d = NULL /\ SingleBuffer.capacity d = 0 /\
    SingleBuffer.used d = 0 /\
    SingleBuffer.arena_alloc_aligned (Some d) size align = (NULL, Some d) /\
    SingleBuffer.arena_alloc (Some d) size = (NULL, Some d) /\
    SingleBuffer.arena_alloc_zeroed (Some d) size m = (NULL, Some d, m) /\
    SingleBuffer.arena_calloc (Some d) count size m = (NULL, Some d, m) /\
    SingleBuffer.arena_used (Some d) = 0 /\
    SingleBuffer.arena_remaining (Some d) = 0 /\
    SingleBuffer.arena_destroy (Some d) = Some d.
Proof.
  intros Hb. unfold SingleBuffer.arena_destroy.
  destruct (Z.eqb_spec (SingleBuffer.buffer a) NULL) as [E|_];
    [contradiction|].
  eexists. split; [reflexivity|].
  split; [reflexivity|]. split; [reflexivity|]. split; [reflexivity|].
  assert (Hal : forall sz al,
             SingleBuffer.arena_alloc_aligned
               (Some {| SingleBuffer.buffer := NULL;
                        SingleBuffer.capacity := 0;
                        SingleBuffer.used := 0;
                        SingleBuffer.commit := 0;
                        SingleBuffer.alignment := SingleBuffer.alignment a;
                        SingleBuffer.max_align := SingleBuffer.max_align a |})
               sz al
             = (NULL,
                Some {| SingleBuffer.buffer := NULL;
                        SingleBuffer.capacity := 0;
                        SingleBuffer.used := 0;
                        SingleBuffer.commit := 0;
                        SingleBuffer.alignment := SingleBuffer.alignment a;
                        SingleBuffer.max_align := SingleBuffer.max_align a |})).
  { intros sz al. apply sb_alloc_on_destroyed; reflexivity. }
  split; [apply Hal|]. split; [apply Hal|].
  split.
  { unfold SingleBuffer.arena_alloc_zeroed, SingleBuffer.arena_alloc.
    rewrite Hal. reflexivity. }
  split.
  { unfold SingleBuffer.arena_calloc, SingleBuffer.arena_alloc. cbv zeta.
    rewrite Hal. reflexivity. }
  repeat split.
Qed.

Lemma single_buffer_destroyed_is_invalid_witness :
  SingleBuffer.buffer SingleBuffer.arena1024 <> NULL /\
  exists d,
    SingleBuffer.arena_destroy (Some SingleBuffer.arena1024) = Some d /\
    SingleBuffer.buffer d = NULL /\ SingleBuffer.capacity d = 0 /\
    SingleBuffer.used d = 0 /\
    SingleBuffer.arena_alloc_aligned (Some d) 10 8 = (NULL, Some d) /\
    SingleBuffer.arena_alloc (Some d) 10 = (NULL, Some d) /\
    SingleBuffer.arena_alloc_zeroed (Some d) 10 zero_memory
    = (NULL, Some d, zero_memory) /\
    SingleBuffer.arena_calloc (Some d) 2 10 zero_memory
    = (NULL, Some d, zero_memory) /\
    SingleBuffer.arena_used (Some d) = 0 /\
    SingleBuffer.arena_remaining (Some d) = 0 /\
    SingleBuffer.arena_destroy (Some d) = Some d.
Proof.
  assert (H : SingleBuffer.buffer SingleBuffer.arena1024 <> NULL)
    by (vm_compute; congruence).
  split; [exact H|].
  exact (single_buffer_destroyed_is_invalid SingleBuffer.arena1024 10 8 2
           zero_memory H).
Defined.

Lemma sb_effective_alignment_pow2 a align :
  0 <= align < 2 ^ 64 ->
  pow2 (SingleBuffer.alignment a) -> pow2 (SingleBuffer.max_align a) ->
  pow2 (SingleBuffer.effective_alignment a align) /\
  SingleBuffer.effective_alignment a align <= SingleBuffer.max_align a.
Proof.
  intros Hal Ha Hm. unfold SingleBuffer.effective_alignment. cbv zeta.
  destruct (bad_alignment align) eqn:Hb.
  - destruct (Z.gtb_spec (SingleBuffer.alignment a) (SingleBuffer.max_align a));
      (split; [assumption | lia]).
  - destruct (Z.gtb_spec align (SingleBuffer.max_align a));
      (split; [try assumption | lia]).
    apply bad_alignment_false; assumption.
Qed.

(** X25.  The contract of the single-buffer [arena_alloc_aligned] on an
    arena in range, for a request below 2^63 bytes.  Either it returns
    [NULL] and leaves the arena untouched, and then [arena_remaining] is
    below [size + alignment - 1]; or it returns a non-null, aligned address
    less than one alignment above the end of the used region, the range
    [[p, p + size)] ends exactly at the new end of the used region, inside
    the buffer, and only [used] has changed. *)
Theorem single_buffer_allocation_contract (a : SingleBuffer.Arena)
    (size align p : Z) (r : option SingleBuffer.Arena) :
  SingleBuffer.arena_in_range a ->
  0 <= align < 2 ^ 64 -> 0 < size < 2 ^ 63 ->
  SingleBuffer.arena_alloc_aligned (Some a) size align = (p, r) ->
  let eff := SingleBuffer.effective_alignment a align in
  let cur := SingleBuffer.buffer a + SingleBuffer.used a in
  (p = NULL /\ r = Some a /\
   SingleBuffer.arena_remaining (Some a) < size + eff - 1) \/
  (p <> NULL /\ p mod eff = 0 /\ cur <= p < cur + eff /\
   exists u,
     r = Some (SingleBuffer.set_used a u) /\
     p + size = SingleBuffer.buffer a + u /\
     u <= SingleBuffer.capacity a).
Proof.
  intros (Ha & Hm & Hb & Hu & Hend) Hal Hs. cbv zeta.
  destruct (sb_effective_alignment_pow2 a align Hal Ha Hm) as [Hp Hle].
  pose proof (pow2_pos _ Hm) as Hmax.
  destruct Hp as (k & Hk & Hk2).
  assert (Hpos : 0 < 2 ^ k) by (apply Z.pow_pos_nonneg; lia).
  unfold SingleBuffer.arena_alloc_aligned.
  destruct (Z.eqb_spec size 0) as [E|_]; [lia|].
  fold (SingleBuffer.effective_alignment a align). cbv zeta.
  rewrite Hk2 in *.
  rewrite (u64_small (SingleBuffer.buffer a + SingleBuffer.used a)) by lia.
  pose proof (align_forward_bounds
                (SingleBuffer.buffer a + SingleBuffer.used a) k Hk) as Hbd.
  pose proof (align_forward_multiple
                (SingleBuffer.buffer a + SingleBuffer.used a) k Hk) as Hmul.
  set (q := align_forward (SingleBuffer.buffer a + SingleBuffer.used a)
              (2 ^ k)) in *.
  assert (Hq : SingleBuffer.buffer a + SingleBuffer.used a <= q
               < SingleBuffer.buffer a + SingleBuffer.used a + 2 ^ k)
    by (apply Hbd; lia).
  rewrite (u64_small (q - (SingleBuffer.buffer a + SingleBuffer.used a)))
    by lia.
  rewrite (u64_small (SingleBuffer.used a
                      + (q - (SingleBuffer.buffer a + SingleBuffer.used a))
                      + size)) by lia.
  destruct (Z.gtb_spec
              (SingleBuffer.used a
               + (q - (SingleBuffer.buffer a + SingleBuffer.used a)) + size)
              (SingleBuffer.capacity a)) as [Hgt|Hfit]; intros [= <- <-].
  - left. split; [reflexivity|]. split; [reflexivity|].
    unfold SingleBuffer.arena_remaining. rewrite u64_small by lia. lia.
  - right. unfold NULL. split; [lia|]. split; [exact Hmul|].
    split; [exact Hq|].
    eexists. split; [reflexivity|].
    rewrite (u64_small (q - (SingleBuffer.buffer a + SingleBuffer.used a)
                        + size)) by lia.
    rewrite u64_small by lia. lia.
Qed.

Lemma single_buffer_allocation_contract_witness :
  let a := SingleBuffer.set_used SingleBuffer.arena1024 1000 in
  let eff := SingleBuffer.effective_alignment a 8 in
  let cur := SingleBuffer.buffer a + SingleBuffer.used a in
  (SingleBuffer.arena_in_range a /\
   SingleBuffer.arena_alloc_aligned (Some a) 30 8 = (NULL, Some a)) /\
  ((NULL = NULL /\ Some a = Some a /\
    SingleBuffer.arena_remaining (Some a) < 30 + eff - 1) \/
   (NULL <> NULL /\ NULL mod eff = 0 /\ cur <= NULL < cur + eff /\
    exists u,
      Some a = Some (SingleBuffer.set_used a u) /\
      NULL + 30 = SingleBuffer.buffer a + u /\
      u <= SingleBuffer.capacity a)).
Proof.
  cbv zeta.
  pose (a := SingleBuffer.set_used SingleBuffer.arena1024 1000).
  assert (Hr : SingleBuffer.arena_in_range a).
  { split; [exists 3; split; [lia | reflexivity]|].
    split; [exists 4; split; [lia | reflexivity]|].
    simpl. lia. }
  assert (He : SingleBuffer.arena_alloc_aligned (Some a) 30 8
               = (NULL, Some a)) by reflexivity.
  split; [split; [exact Hr | exact He]|].
  apply (single_buffer_allocation_contract a 30 8 NULL (Some a) Hr);
    try lia. exact He.
Defined.

(** X26.  The single-buffer [arena_create_with_alignment] stores the
    alignment it has normalised: whatever alignment is asked for, the arena
    it returns over a buffer has a power of two of at most
    [ARENA_MAX_ALIGNMENT] as its default alignment, the maximum alignment
    [ARENA_MAX_ALIGNMENT], the capacity asked for and nothing used. *)
Theorem single_buffer_create_normalises (libc : Libc) (cap al mem : Z) :
  0 <= al < 2 ^ 64 ->
  posix_memalign libc (block_alignment al) cap = Some mem ->
  let a := SingleBuffer.arena_create_with_alignment libc cap al in
  a = {| SingleBuffer.buffer := mem; SingleBuffer.capacity := cap;
         SingleBuffer.used := 0; SingleBuffer.commit := cap;
         SingleBuffer.alignment := block_alignment al;
         SingleBuffer.max_align := ARENA_MAX_ALIGNMENT |} /\
  pow2 (SingleBuffer.alignment a) /\
  SingleBuffer.alignment a <= SingleBuffer.max_align a /\
  pow2 (SingleBuffer.max_align a).
Proof.
  intros Hal Hmem. cbv zeta.
  assert (Ha : SingleBuffer.arena_create_with_alignment libc cap al
               = {| SingleBuffer.buffer := mem; SingleBuffer.capacity := cap;
                    SingleBuffer.used := 0; SingleBuffer.commit := cap;
                    SingleBuffer.alignment := block_alignment al;
                    SingleBuffer.max_align := ARENA_MAX_ALIGNMENT |}).
  { unfold SingleBuffer.arena_create_with_alignment. cbv zeta.
    fold (block_alignment al). rewrite Hmem. reflexivity. }
  rewrite Ha. simpl.
  destruct (block_alignment_pow2 al Hal) as [Hp Hle].
  repeat split; try assumption.
  exists 4. split; [lia | reflexivity].
Qed.

Lemma single_buffer_create_normalises_witness :
  let a := SingleBuffer.arena_create_with_alignment (libc_at 4096) 1024 3 in
  (0 <= 3 < 2 ^ 64 /\
   posix_memalign (libc_at 4096) (block_alignment 3) 1024 = Some 4096) /\
  a = {| SingleBuffer.buffer := 4096; SingleBuffer.capacity := 1024;
         SingleBuffer.used := 0; SingleBuffer.commit := 1024;
         SingleBuffer.alignment := block_alignment 3;
         SingleBuffer.max_align := ARENA_MAX_ALIGNMENT |} /\
  pow2 (SingleBuffer.alignment a) /\
  SingleBuffer.alignment a <= SingleBuffer.max_align a /\
  pow2 (SingleBuffer.max_align a).
Proof.
  cbv zeta. split; [split; [lia | reflexivity]|].
  apply (single_buffer_create_normalises (libc_at 4096) 1024 3 4096);
    [lia | reflexivity].
Defined.

(** X27.  In the single-buffer allocator, once the default and the maximum
    alignment of an arena are powers of two, every address
    [arena_alloc_aligned] returns, after any sequence of allocating calls,
    is a multiple of the effective alignment of the request. *)
Theorem single_buffer_addresses_are_aligned
    (l : list SingleBuffer.alloc_call) (a : SingleBuffer.Arena) (m : memory)
    (size align : Z) :
  pow2 (SingleBuffer.alignment a) -> pow2 (SingleBuffer.max_align a) ->
  0 <= align < 2 ^ 64 ->
  let a' := fst (SingleBuffer.run l a m) in
  fst (SingleBuffer.arena_alloc_aligned (Some a') size align)
    mod SingleBuffer.effective_alignment a' align = 0.
Proof.
  intros Ha Hm Hal. cbv zeta.
  destruct (sb_run_frame l a m) as (u & ->).
  destruct (sb_effective_alignment_pow2 (SingleBuffer.set_used a u) align
              Hal Ha Hm) as [(k & Hk & Hk2) _].
  unfold SingleBuffer.arena_alloc_aligned.
  destruct (size =? 0); [apply Zmod_0_l|].
  fold (SingleBuffer.effective_alignment (SingleBuffer.set_used a u) align).
  cbv zeta. destruct (_ >? _); [apply Zmod_0_l|].
  simpl fst. rewrite Hk2. apply align_forward_multiple. exact Hk.
Qed.

Lemma single_buffer_addresses_are_aligned_witness :
  let a := SingleBuffer.arena1024 in
  let l := [ SingleBuffer.Alloc 10; SingleBuffer.Strdup (Some [x48; x69]) ] in
  let a' := fst (SingleBuffer.run l a zero_memory) in
  (pow2 (SingleBuffer.alignment a) /\ pow2 (SingleBuffer.max_align a) /\
   0 <= 64 < 2 ^ 64) /\
  fst (SingleBuffer.arena_alloc_aligned (Some a') 5 64)
    mod SingleBuffer.effective_alignment a' 64 = 0.
Proof.
  cbv zeta.
  assert (H8 : pow2 (SingleBuffer.alignment SingleBuffer.arena1024))
    by (exists 3; split; [lia | reflexivity]).
  assert (H16 : pow2 (SingleBuffer.max_align SingleBuffer.arena1024))
    by (exists 4; split; [lia | reflexivity]).
  assert (Hr : 0 <= 64 < 2 ^ 64) by lia.
  split; [split; [exact H8 | split; [exact H16 | exact Hr]]|].
  exact (single_buffer_addresses_are_aligned
           [ SingleBuffer.Alloc 10; SingleBuffer.Strdup (Some [x48; x69]) ]
           SingleBuffer.arena1024 zero_memory 5 64 H8 H16 Hr).
Defined.

(** * The test counters *)

Lemma u32_range z : 0 <= TestH.u32 z < 2 ^ 32.
Proof. unfold TestH.u32. apply Z.mod_pos_bound. lia. Qed.

Lemma u32_add_idemp_l x y : TestH.u32 (TestH.u32 x + y) = TestH.u32 (x + y).
Proof. unfold TestH.u32. apply Zplus_mod_idemp_l. Qed.

Lemma tests_counts xs :
  forall st,
    0 <= TestH.test_num st < 2 ^ 32 ->
    0 <= TestH.successes st < 2 ^ 32 ->
    0 <= TestH.failures st < 2 ^ 32 ->
    let st' := TestH.tests xs st in
    TestH.test_num st'
    = TestH.u32 (TestH.test_num st + Z.of_nat (length xs)) /\
    TestH.successes st'
    = TestH.u32 (TestH.successes st
                 + Z.of_nat (length (filter (fun x => x) xs))) /\
    TestH.failures st'
    = TestH.u32 (TestH.failures st
                 + Z.of_nat (length (filter negb xs))) /\
    TestH.printed st' = TestH.printed st ++ xs.
Proof.
  unfold TestH.tests.
  induction xs as [|x xs IH]; intros st Hn Hs Hf; cbv zeta.
  - simpl. rewrite !Z.add_0_r, app_nil_r.
    unfold TestH.u32. rewrite !Z.mod_small by assumption. repeat split.
  - cbn [fold_left].
    specialize (IH (TestH.test x st)).
    destruct x; cbn [TestH.test] in *;
      cbn [TestH.test_num TestH.successes TestH.failures TestH.printed] in IH;
      (destruct IH as (H1 & H2 & H3 & H4);
       [apply u32_range || assumption ..|]);
      rewrite H1, H2, H3, H4; cbn [filter negb length];
      rewrite ?u32_add_idemp_l, <- ?app_assoc;
      repeat split; try (f_equal; lia); reflexivity.
Qed.

(** X28.  After any sequence of [test(x)] calls from the initial counters,
    [test_num] is the number of calls, [successes] the number of calls with
    a true condition and [failures] the number with a false one (each
    modulo 2^32); so [successes + failures] equals [test_num] modulo 2^32,
    and one mark was printed for each call, in order. *)
Theorem test_counters_add_up (xs : list bool) :
  let st := TestH.tests xs TestH.initial in
  TestH.test_num st = TestH.u32 (Z.of_nat (length xs)) /\
  TestH.successes st
  = TestH.u32 (Z.of_nat (length (filter (fun x => x) xs))) /\
  TestH.failures st = TestH.u32 (Z.of_nat (length (filter negb xs))) /\
  TestH.u32 (TestH.successes st + TestH.failures st) = TestH.test_num st /\
  TestH.printed st = xs.
Proof.
  cbv zeta.
  destruct (tests_counts xs TestH.initial) as (H1 & H2 & H3 & H4);
    try (simpl; lia).
  simpl in H1, H2, H3, H4.
  rewrite H1, H2, H3, H4. repeat split.
  unfold TestH.u32. rewrite <- Zplus_mod. f_equal.
  rewrite <- Nat2Z.inj_add. f_equal.
  clear. induction xs as [|x xs IH]; [reflexivity|].
  destruct x; simpl; lia.
Qed.

(** * A caller-supplied buffer *)

(** X29.  [arena_init] refuses a null arena pointer and a null buffer.
    Over an 8-byte aligned buffer that lies in the lower half of the
    address space it yields an arena with nothing used and the whole
    capacity remaining, and the first allocation that fits returns the
    start of the buffer and uses exactly the requested size. *)
Theorem init_then_alloc (buf cap size : Z) :
  0 < buf -> buf mod 8 = 0 -> buf + cap + 16 <= 2 ^ 63 ->
  0 < size <= cap ->
  SingleBuffer.arena_init false buf cap = (false, None) /\
  SingleBuffer.arena_init true NULL cap = (false, None) /\
  exists a,
    SingleBuffer.arena_init true buf cap = (true, Some a) /\
    SingleBuffer.arena_used (Some a) = 0 /\
    SingleBuffer.arena_remaining (Some a) = cap /\
    SingleBuffer.arena_alloc (Some a) size
    = (buf, Some (SingleBuffer.set_used a size)).
Proof.
  intros Hb Hmod Hend Hs.
  split; [reflexivity|]. split; [reflexivity|].
  unfold SingleBuffer.arena_init.
  destruct (Z.eqb_spec buf NULL) as [E|_]; [unfold NULL in E; lia|].
  cbn [negb orb]. eexists. split; [reflexivity|].
  split; [reflexivity|]. split.
  { unfold SingleBuffer.arena_remaining. simpl. rewrite Z.sub_0_r.
    apply u64_small. lia. }
  unfold SingleBuffer.arena_alloc, SingleBuffer.arena_alloc_aligned.
  destruct (Z.eqb_spec size 0) as [E|_]; [lia|].
  cbn [SingleBuffer.alignment SingleBuffer.max_align SingleBuffer.buffer
       SingleBuffer.used SingleBuffer.capacity].
  change (bad_alignment ARENA_DEFAULT_ALIGNMENT) with false. cbv zeta iota.
  change (ARENA_DEFAULT_ALIGNMENT >? ARENA_MAX_ALIGNMENT) with false.
  cbv iota. rewrite Z.add_0_r, (u64_small buf) by lia.
  assert (H8 : pow2 ARENA_DEFAULT_ALIGNMENT)
    by (exists 3; split; [lia | reflexivity]).
  rewrite (align_forward_fixed buf ARENA_DEFAULT_ALIGNMENT H8)
    by (unfold ARENA_DEFAULT_ALIGNMENT; lia).
  rewrite Z.sub_diag. change (u64 0) with 0. simpl (0 + 0 + size).
  rewrite !Z.add_0_l, !u64_small by lia.
  destruct (Z.gtb_spec size cap) as [Hgt|_]; [lia|]. reflexivity.
Qed.

Lemma init_then_alloc_witness :
  (0 < 4096 /\ 4096 mod 8 = 0 /\ 4096 + 256 + 16 <= 2 ^ 63 /\
   0 < 16 <= 256) /\
  SingleBuffer.arena_init false 4096 256 = (false, None) /\
  SingleBuffer.arena_init true NULL 256 = (false, None) /\
  exists a,
    SingleBuffer.arena_init true 4096 256 = (true, Some a) /\
    SingleBuffer.arena_used (Some a) = 0 /\
    SingleBuffer.arena_remaining (Some a) = 256 /\
    SingleBuffer.arena_alloc (Some a) 16
    = (4096, Some (SingleBuffer.set_used a 16)).
Proof.
  split; [repeat split; (reflexivity || lia)|].
  apply (init_then_alloc 4096 256 16); (reflexivity || lia).
Defined.
